(** * MRtrix filtering: the [mrfilter] driver and the [AllowEmpty] image adapter

    A shallow embedding of
    - [cmd_to_port/mrfilter.cpp] (the [filters] table and [run]), and
    - the class [Adapter::AllowEmpty] (the header guarded by
      [__image_adapter_allow_empty_h__], which the sources carry at the end
      of [bin/foreach]),
    followed by the properties of the specification that these two files
    decide.

    Conventions of the embedding.
    - [default_type] is C++ [double]: the kernel's binary64 floats, so that
      [x < 0.0] and [x / 2.3548] are the IEEE operations of the program.
    - An exception, a failed assertion and undefined behaviour are three
      distinct abnormal outcomes of a computation ([Outcome]).
    - [run] lives in a state-and-exception monad whose state is the [World]:
      the sequence of calls made to the collaborators (image storage, filter
      objects) and the image written to the output path. *)

From Stdlib Require Import ZArith List String Bool Lia PeanoNat Floats.
Import ListNotations.

(* A decimal literal such as 2.3548 stands for the nearest double, as it
   does in C++. *)
Set Warnings "-inexact-float".

Set Implicit Arguments.

(** ** Outcomes of a computation *)

Inductive Outcome (A : Type) : Type :=
| Ok (a : A)              (* normal return *)
| Throw (msg : string)    (* [throw Exception (msg)] *)
| AssertFail              (* a failed [assert]: the process is aborted *)
| Undefined.              (* out-of-range element access, null handle *)

Arguments Ok {A} a.
Arguments Throw {A} msg.
Arguments AssertFail {A}.
Arguments Undefined {A}.

Definition is_ok {A} (o : Outcome A) : bool :=
  match o with Ok _ => true | _ => false end.

Definition is_throw {A} (o : Outcome A) : bool :=
  match o with Throw _ => true | _ => false end.

(** ** Scalars *)

Definition default_type : Type := float.          (* double *)
Definition cdouble : Type := (float * float)%type. (* std::complex<double> *)

(** [std::vector<T>::operator[]]: reading or writing past the end is
    undefined behaviour. *)
Definition vec_get {A} (v : list A) (i : nat) : Outcome A :=
  match nth_error v i with
  | Some x => Ok x
  | None => Undefined
  end.

Fixpoint vec_set {A} (v : list A) (i : nat) (x : A) : Outcome (list A) :=
  match v, i with
  | [], _ => Undefined
  | _ :: r, O => Ok (x :: r)
  | y :: r, S j =>
      match vec_set r j x with
      | Ok r' => Ok (y :: r')
      | Throw m => Throw m
      | AssertFail => AssertFail
      | Undefined => Undefined
      end
  end.

(** [std::vector<T>::resize (n, fill)]. *)
Definition vec_resize {A} (v : list A) (n : nat) (fill : A) : list A :=
  firstn n v ++ repeat fill (n - List.length v).

(** Truncation of a double towards zero, for the integer value types
    ([value_type (0.0)] with an integer [value_type]). *)
Definition trunc_to_Z (x : float) : Z :=
  match Prim2SF x with
  | S754_finite s m e =>
      let mag := match e with
                 | Z0 => Zpos m
                 | Zpos p => Z.shiftl (Zpos m) (Zpos p)
                 | Zneg p => Z.shiftr (Zpos m) (Zpos p)
                 end in
      if s then Z.opp mag else mag
  | _ => 0%Z
  end.

(** The conversion of a [double] to the 32-bit [float], as an assignment of
    a double to a float makes it: the nearest value with a significand of 24
    bits and an exponent in the range of binary32, ties to even; beyond that
    range an infinity, below it a subnormal or a zero. The result is kept
    as the double of the same value. *)
Definition narrow (x : float) : float :=
  match Prim2SF x with
  | S754_finite s m e => SF2Prim (binary_round 24 128 s m e)
  | _ => x
  end.

(** The image value types: what [value_type (x)] makes of a double, and the
    zero of the type. *)
Class ValueType (V : Type) : Type := {
  of_double : float -> V;
  vzero : V;
  of_double_zero : of_double 0%float = vzero
}.

#[export] Instance ValueType_float : ValueType float :=
  {| of_double := fun x => x; vzero := 0%float; of_double_zero := eq_refl |}.

#[export] Instance ValueType_int : ValueType Z :=
  {| of_double := trunc_to_Z; vzero := 0%Z; of_double_zero := eq_refl |}.

#[export] Instance ValueType_bool : ValueType bool :=
  {| of_double := fun x => negb (PrimFloat.eqb x 0%float); vzero := false;
     of_double_zero := eq_refl |}.

#[export] Instance ValueType_cdouble : ValueType cdouble :=
  {| of_double := fun x => (x, 0%float); vzero := (0%float, 0%float);
     of_double_zero := eq_refl |}.

(** * The image adapter [Adapter::AllowEmpty] *)

Module Adapter.

Section AllowEmpty.

Context {value_type : Type} `{ValueType value_type}.

(** Modelled from the spec: the Image Handle ([image.h] is not part of the
    sources), "a cursor-bearing view over voxel storage" with the
    capability set [size], [index] get/set, [value] get/set. A handle
    that is not valid has nothing behind it: every use of it other than
    asking [valid()] is a fault. *)
Record ImageType : Type := {
  img_valid : bool;
  img_size : list Z;                    (* extent per axis *)
  img_index : list Z;                   (* cursor, per axis *)
  img_voxels : list Z -> value_type     (* storage, by position *)
}.

Definition set_index (p : ImageType) (l : list Z) : ImageType :=
  {| img_valid := img_valid p; img_size := img_size p;
     img_index := l; img_voxels := img_voxels p |}.

Definition set_voxels (p : ImageType) (f : list Z -> value_type) : ImageType :=
  {| img_valid := img_valid p; img_size := img_size p;
     img_index := img_index p; img_voxels := f |}.

Definition pos_eqb (p q : list Z) : bool :=
  if list_eq_dec Z.eq_dec p q then true else false.

(** The calls an adapter can make on its parent. *)
Inductive Access : Type :=
| GetIndex (axis : nat)
| AddIndex (axis : nat) (increment : Z)
| SetPos (axis : nat) (position : Z)
| GetValue
| SetValue (val : value_type).

(** [Base<ImageType>] holds the parent handle ([parent_]) and, as
    [AllowEmpty] reads it, a [size_] table; [value_if_empty] is
    [AllowEmpty]'s own member. [touched] is not a member: it records
    every call made on the parent, in order. *)
Record AllowEmpty : Type := {
  parent_ : ImageType;
  size_ : list Z;
  value_if_empty : value_type;
  touched : list Access
}.

Definition with_parent (a : AllowEmpty) (p : ImageType) (c : Access) : AllowEmpty :=
  {| parent_ := p; size_ := size_ a; value_if_empty := value_if_empty a;
     touched := touched a ++ [c] |}.

(** A method returns its result together with the adapter afterwards. *)
Definition Method (A : Type) : Type := (Outcome A * AllowEmpty)%type.

(** *** The parent's operations *)

(** Modelled from the spec: [parent().index (axis)], read. *)
Definition parent_index (a : AllowEmpty) (axis : nat) : Method Z :=
  let p := parent_ a in
  let a' := with_parent a p (GetIndex axis) in
  if img_valid p then (vec_get (img_index p) axis, a') else (Undefined, a').

(** Modelled from the spec: [parent().index (axis) += increment]. *)
Definition parent_index_add (a : AllowEmpty) (axis : nat) (increment : Z) : Method unit :=
  let p := parent_ a in
  if img_valid p then
    match vec_get (img_index p) axis with
    | Ok i =>
        match vec_set (img_index p) axis (i + increment)%Z with
        | Ok l => (Ok tt, with_parent a (set_index p l) (AddIndex axis increment))
        | _ => (Undefined, with_parent a p (AddIndex axis increment))
        end
    | _ => (Undefined, with_parent a p (AddIndex axis increment))
    end
  else (Undefined, with_parent a p (AddIndex axis increment)).

(** Modelled from the spec: [set_pos (n, position)], a member of [Base]
    ([adapter/base.h] is not part of the sources): "[index (axis)] get/set"
    on the parent. *)
Definition set_pos (a : AllowEmpty) (n : nat) (position : Z) : Method unit :=
  let p := parent_ a in
  if img_valid p then
    match vec_set (img_index p) n position with
    | Ok l => (Ok tt, with_parent a (set_index p l) (SetPos n position))
    | _ => (Undefined, with_parent a p (SetPos n position))
    end
  else (Undefined, with_parent a p (SetPos n position)).

(** Modelled from the spec: [parent_.value()], read. *)
Definition parent_value (a : AllowEmpty) : Method value_type :=
  let p := parent_ a in
  let a' := with_parent a p GetValue in
  if img_valid p then (Ok (img_voxels p (img_index p)), a') else (Undefined, a').

(** Modelled from the spec: [parent_.value() = val]. *)
Definition parent_set_value (a : AllowEmpty) (val : value_type) : Method unit :=
  let p := parent_ a in
  if img_valid p then
    let here := img_index p in
    (Ok tt,
     with_parent a
       (set_voxels p (fun q => if pos_eqb q here then val else img_voxels p q))
       (SetValue val))
  else (Undefined, with_parent a p (SetValue val)).

(** *** Members inherited from [Base] *)

(** Modelled from the spec: [Base<ImageType>::valid], "a validity flag on
    the parent". *)
Definition valid (a : AllowEmpty) : bool := img_valid (parent_ a).

(** Modelled from the spec: [ndim()], a member of [Base]: the number of
    axes, read off [size_]. *)
Definition ndim (a : AllowEmpty) : nat := List.length (size_ a).

(** *** [AllowEmpty] itself *)

(** [AllowEmpty (const ImageType& original,
                 value_type value_if_empty = value_type (0.0))]:
    [None] is a call that leaves the second argument out. *)
Definition AllowEmpty_new (original : ImageType) (value_if_empty : option value_type)
  : AllowEmpty :=
  {| parent_ := original;
     size_ := img_size original;
     value_if_empty := match value_if_empty with
                       | Some v => v
                       | None => of_double 0%float
                       end;
     touched := [] |}.

(** The loop of [reset]: [for (size_t n = 0; n < ndim(); ++n) set_pos (n, 0)],
    with [count] iterations left from axis [n]. *)
Fixpoint reset_loop (count n : nat) (a : AllowEmpty) : Method unit :=
  match count with
  | O => (Ok tt, a)
  | S count' =>
      match set_pos a n 0%Z with
      | (Ok _, a') => reset_loop count' (S n) a'
      | r => r
      end
  end.

Definition reset (a : AllowEmpty) : Method unit :=
  if valid a then reset_loop (ndim a) 0 a else (Ok tt, a).

(** The non-const overloads of [index] and [value] return the proxies
    [Helper::index] and [Helper::value] on the adapter itself: a read
    through them is the const overload below, a write is [move_index] and
    [set_value]. *)
Definition size (a : AllowEmpty) (axis : nat) : Method Z :=
  if valid a then (vec_get (size_ a) axis, a) else (Ok 0%Z, a).

Definition index (a : AllowEmpty) (axis : nat) : Method Z :=
  if valid a then parent_index a axis else (Ok 0%Z, a).

Definition move_index (a : AllowEmpty) (axis : nat) (increment : Z) : Method unit :=
  if valid a then parent_index_add a axis increment else (Ok tt, a).

Definition value (a : AllowEmpty) : Method value_type :=
  if valid a then parent_value a else (Ok (value_if_empty a), a).

Definition set_value (a : AllowEmpty) (val : value_type) : Method unit :=
  if valid a then parent_set_value a val else (Ok tt, a).

End AllowEmpty.

Arguments ImageType value_type : clear implicits.
Arguments AllowEmpty value_type : clear implicits.
Arguments Access value_type : clear implicits.

(** A handle with nothing behind it, and an adapter on it. *)
Definition no_image (V : Type) `{ValueType V} : ImageType V :=
  {| img_valid := false; img_size := []; img_index := [];
     img_voxels := fun _ => vzero |}.

Arguments no_image V {_}.

Definition empty_adapter : AllowEmpty float :=
  AllowEmpty_new (no_image float) (Some 7%float).

(** A 2 x 2 volume of ones with the cursor at the origin. *)
Definition small_image : ImageType float :=
  {| img_valid := true; img_size := [2; 2]%Z; img_index := [0; 0]%Z;
     img_voxels := fun _ => 1%float |}.

(** The adapter after [set_pos (k, 0)] was called for the axes [k] from [n]
    to [n + count - 1], each of them within the cursor of the parent. *)
Definition after_reset {V} (n count : nat) (a : AllowEmpty V) : AllowEmpty V :=
  let idx := img_index (parent_ a) in
  {| parent_ :=
       set_index (parent_ a)
         (firstn n idx ++ repeat 0%Z count ++ skipn (n + count) idx);
     size_ := size_ a;
     value_if_empty := value_if_empty a;
     touched := touched a ++ map (fun k => SetPos k 0%Z) (seq n count) |}.

(** The same volume with the cursor moved to (1, 1). *)
Definition moved_image : ImageType float :=
  {| img_valid := true; img_size := [2; 2]%Z; img_index := [1; 1]%Z;
     img_voxels := fun _ => 1%float |}.

End Adapter.

(** * The filter driver [mrfilter] *)

Module MRFilter.

(** [const char* filters[] = { "fft", "gradient", "median", "smooth", NULL };] *)
Definition filters : list string :=
  ["fft"; "gradient"; "median"; "smooth"]%string.

(** ** Volumes *)

Inductive DataType : Type :=
| Bit | UInt8 | Int16 | Int32 | Float32 | Float64 | CFloat32 | CFloat64.

Definition is_complex (dt : DataType) : bool :=
  match dt with CFloat32 | CFloat64 => true | _ => false end.

(** One axis of a volume: extent in voxels, physical voxel size (mm),
    stride. A header is a table of axes and a datatype, so the three
    per-axis sequences of the spec have one length by construction. *)
Record Axis : Type := { size : nat; vox : float; stride : Z }.

Record Header : Type := { axes_ : list Axis; datatype_ : DataType }.

Definition ndim (h : Header) : nat := List.length (axes_ h).

Definition voxsize (h : Header) (axis : nat) : Outcome float :=
  match nth_error (axes_ h) axis with
  | Some a => Ok (vox a)
  | None => Undefined
  end.

Definition dims (h : Header) : list nat := map size (axes_ h).

Definition with_datatype (h : Header) (dt : DataType) : Header :=
  {| axes_ := axes_ h; datatype_ := dt |}.

(** A voxel position, one index per axis. *)
Definition Pos : Type := list nat.

Definition Pos_eqb (p q : Pos) : bool :=
  if list_eq_dec Nat.eq_dec p q then true else false.

(** A stored voxel is real or complex, as the datatype of its file says. *)
Inductive Scalar : Type :=
| Real (x : float)
| Complex (z : cdouble).

(** Modelled from the spec: what [Image<cdouble>] and [Image<float>] read
    from a stored voxel ("input and intermediate data are complex-valued
    regardless of whether the source is real"). *)
Definition to_cdouble (s : Scalar) : cdouble :=
  match s with Real x => (x, 0%float) | Complex z => z end.

Definition to_float (s : Scalar) : float :=
  match s with Real x => x | Complex z => fst z end.

(** A volume in storage. *)
Record Stored : Type := { st_header : Header; st_voxels : Pos -> Scalar }.

(** [Image<V>]: a view on a volume; [backing] is the path of its file, or
    [None] for a scratch buffer. *)
Record Image (V : Type) : Type := {
  backing : option string;
  header : Header;
  voxels : Pos -> V
}.

Definition set_voxel {V} (img : Image V) (p : Pos) (v : V) : Image V :=
  {| backing := backing img; header := header img;
     voxels := fun q => if Pos_eqb q p then v else voxels img q |}.

Definition with_voxels {V} (img : Image V) (f : Pos -> V) : Image V :=
  {| backing := backing img; header := header img; voxels := f |}.

(** The positions of a grid, axis 0 running fastest. *)
Fixpoint positions (extent : list nat) : list Pos :=
  match extent with
  | [] => [[]]
  | n :: rest =>
      flat_map (fun p => map (fun i => i :: p) (seq 0 n)) (positions rest)
  end.

(** ** Filter objects

    The classes of [filter/base.h], [filter/fft.h], [filter/gradient.h],
    [filter/median.h] and [filter/smooth.h] are not part of the sources:
    their state is modelled from the spec, and their call operators are
    the [Numerics] below. *)

(** Modelled from the spec: [Filter::Base], which "computes a candidate
    output VolumeHeader" and "exposes a settable human-readable progress
    message". *)
Record Base : Type := { hdr : Header; message : string }.

(** Modelled from the spec: "FFT{axes: set of axis indices (default = first
    three), inverse: bool, magnitude_output: bool, centre_zero: bool}";
    whether the magnitude is wanted stays with [run]. *)
Record FFT : Type := {
  fft_base : Base;
  fft_inverse : bool;
  fft_axes : list Z;
  fft_centre_zero : bool
}.

(** Modelled from the spec: "Gradient{stdev: 1 or 3 positive reals,
    magnitude_output: bool, scanner_frame: bool}". *)
Record Gradient : Type := {
  grad_base : Base;
  grad_magnitude : bool;
  grad_stdev : list default_type;
  grad_wrt_scanner : bool
}.

(** Modelled from the spec: "Median{extent: 1 or 3 positive odd integers,
    default 3}". *)
Record Median : Type := {
  med_base : Base;
  med_extent : list Z
}.

(** Modelled from the spec: "Smooth{stdev: sequence of non-negative reals
    ..., extent: sequence of positive odd integers ...}"; a fwhm list has
    become a stdev list before it reaches the filter. *)
Record Smooth : Type := {
  sm_base : Base;
  sm_stdev : list default_type;
  sm_extent : list Z
}.

Inductive AnyFilter : Type :=
| AnFFT (f : FFT)
| AnGradient (f : Gradient)
| AnMedian (f : Median)
| AnSmooth (f : Smooth).

(** What the four classes inherit from [Filter::Base]. *)
Class FilterClass (F : Type) : Type := {
  base : F -> Base;
  with_base : F -> Base -> F;
  any : F -> AnyFilter
}.

#[export] Instance FilterClass_FFT : FilterClass FFT := {|
  base := fft_base;
  with_base := fun f b =>
    {| fft_base := b; fft_inverse := fft_inverse f; fft_axes := fft_axes f;
       fft_centre_zero := fft_centre_zero f |};
  any := AnFFT |}.

#[export] Instance FilterClass_Gradient : FilterClass Gradient := {|
  base := grad_base;
  with_base := fun f b =>
    {| grad_base := b; grad_magnitude := grad_magnitude f;
       grad_stdev := grad_stdev f; grad_wrt_scanner := grad_wrt_scanner f |};
  any := AnGradient |}.

#[export] Instance FilterClass_Median : FilterClass Median := {|
  base := med_base;
  with_base := fun f b => {| med_base := b; med_extent := med_extent f |};
  any := AnMedian |}.

#[export] Instance FilterClass_Smooth : FilterClass Smooth := {|
  base := sm_base;
  with_base := fun f b =>
    {| sm_base := b; sm_stdev := sm_stdev f; sm_extent := sm_extent f |};
  any := AnSmooth |}.

Definition any_base (f : AnyFilter) : Base :=
  match f with
  | AnFFT f => base f
  | AnGradient f => base f
  | AnMedian f => base f
  | AnSmooth f => base f
  end.

(** Modelled from the spec: the constructor of [Filter::FFT]. "Axes ...
    default = first three"; "output datatype is complex". *)
Definition FFT_new (input : Header) (inverse : bool) : FFT :=
  {| fft_base := {| hdr := with_datatype input CFloat32; message := EmptyString |};
     fft_inverse := inverse;
     fft_axes := [0; 1; 2]%Z;
     fft_centre_zero := false |}.

(** Modelled from the spec: the constructor of [Filter::Gradient]. With
    [magnitude] the output has the geometry of the input; "otherwise output
    has one extra axis of length 3 holding the components" (placed after
    the three spatial axes). The refusal of an input of "fewer than 3
    spatial axes" (the GeometryError of the spec) belongs to the class and
    is not modelled: what is proved of [run] for this filter is proved of
    the runs that return normally, or of the checks of [run] itself. *)
Definition Gradient_new (input : Header) (magnitude : bool) : Gradient :=
  {| grad_base :=
       {| hdr := if magnitude then input
                 else {| axes_ := firstn 3 (axes_ input)
                                  ++ [{| size := 3; vox := 1%float; stride := 0%Z |}]
                                  ++ skipn 3 (axes_ input);
                         datatype_ := datatype_ input |};
          message := EmptyString |};
     grad_magnitude := magnitude;
     grad_stdev := [];
     grad_wrt_scanner := false |}.

(** Modelled from the spec: the constructor of [Filter::Median], "extent
    ... default 3". *)
Definition Median_new (input : Header) : Median :=
  {| med_base := {| hdr := input; message := EmptyString |};
     med_extent := [3; 3; 3]%Z |}.

(** Modelled from the spec: the constructor of [Filter::Smooth]. "Default
    stdev when neither stdev nor fwhm is given is one voxel's physical size
    per axis"; the default extent is derived when the filter runs. *)
Definition Smooth_new (input : Header) : Smooth :=
  {| sm_base := {| hdr := input; message := EmptyString |};
     sm_stdev := map vox (firstn 3 (axes_ input));
     sm_extent := [] |}.

(** The numerical kernels, which the sources do not hold and which stay
    parameters of [run]: what the call operator of each filter class makes
    of the input voxels, and [std::abs] on [std::complex<double>]. *)
Record Numerics : Type := {
  fft_kernel : FFT -> (Pos -> cdouble) -> Pos -> cdouble;
  gradient_kernel : Gradient -> (Pos -> float) -> Pos -> float;
  median_kernel : Median -> (Pos -> float) -> Pos -> float;
  smooth_kernel : Smooth -> (Pos -> float) -> Pos -> float;
  std_abs : cdouble -> float
}.

(** ** The command line *)

(** What the option system hands to [run]: the three positional arguments,
    the volume found at the input path, and, per option, whether it was
    given ([get_options (name).size()]) and its parsed argument
    ([opt[0][0]], through [parse_floats] or [parse_ints] where the code
    calls them). *)
Record Invocation : Type := {
  argument0 : string;
  argument1 : string;
  argument2 : string;
  input_file : Stored;
  opt_axes : option (list Z);
  opt_inverse : bool;
  opt_magnitude : bool;
  opt_centre_zero : bool;
  opt_stdev : option (list default_type);
  opt_scanner : bool;
  opt_extent : option (list Z);
  opt_fwhm : option (list default_type);
  opt_strides : option (list Z)
}.

(** ** The world of [run] *)

(** A change made to a filter object after its construction. *)
Inductive Setting : Type :=
| SetAxes (l : list Z)
| SetCentreZero (b : bool)
| SetStdev (l : list default_type)
| SetExtent (l : list Z)
| ComputeWrtScanner (b : bool)
| SetMessage (s : string)
| SetStrides (l : option (list Z))
| SetDatatype (dt : DataType).

Inductive Event : Type :=
| Opened (name : string)                 (* Image<T>::open *)
| DirectIO (name : string)               (* .with_direct_io() *)
| Configured (s : Setting)               (* a setter of the filter *)
| Scratch (h : Header) (label : string)  (* Image<T>::scratch *)
| Created (name : string) (h : Header)   (* Image<T>::create *)
| CallBegin (f : AnyFilter)              (* filter (input, output) entered *)
| CallEnd (f : AnyFilter)                (* ... and left *)
| VoxelLoop (name : option string).      (* a loop writing every voxel *)

Record World : Type := {
  calls : list Event;
  written : option (string * Stored)
}.

Definition initial : World := {| calls := []; written := None |}.

Definition M (A : Type) : Type := World -> Outcome A * World.

Definition ret {A} (a : A) : M A := fun w => (Ok a, w).

Definition bind {A B} (m : M A) (k : A -> M B) : M B :=
  fun w =>
    match m w with
    | (Ok a, w') => k a w'
    | (Throw msg, w') => (Throw msg, w')
    | (AssertFail, w') => (AssertFail, w')
    | (Undefined, w') => (Undefined, w')
    end.

Definition throw {A} (msg : string) : M A := fun w => (Throw msg, w).

Definition lift {A} (o : Outcome A) : M A := fun w => (o, w).

Definition log (e : Event) : M unit :=
  fun w => (Ok tt, {| calls := calls w ++ [e]; written := written w |}).

Declare Scope run_scope.
Delimit Scope run_scope with run.
Notation "x <- m ;; k" := (bind m (fun x => k))
  (at level 61, m at next level, right associativity) : run_scope.
Notation "m ;; k" := (bind m (fun _ => k))
  (at level 61, right associativity) : run_scope.
Open Scope run_scope.

(** [for (size_t i = first; i != first + count; ++i) s = body (i, s)]. *)
Fixpoint for_ {S} (count first : nat) (body : nat -> S -> M S) (s : S) : M S :=
  match count with
  | O => ret s
  | Datatypes.S count' => s' <- body first s ;; for_ count' (Datatypes.S first) body s'
  end.

(** ** Image storage

    [Image<T>::open], [scratch] and [create] belong to [image.h], which is
    not part of the sources. Their failures (the IOError of the spec,
    "propagated unchanged") are not modelled: the three return normally
    here, and a property that needs them to is stated of the runs that
    return normally. *)

(** How a value type is read from and written to storage. *)
Class Stores (V : Type) : Type := {
  load_as : Scalar -> V;
  store_as : V -> Scalar
}.

#[export] Instance Stores_float : Stores float :=
  {| load_as := to_float; store_as := Real |}.

#[export] Instance Stores_cdouble : Stores cdouble :=
  {| load_as := to_cdouble; store_as := Complex |}.

(** Modelled from the spec: a write to an image that has a file behind it
    is a write to that file (the adapter and the handles "never copy voxel
    storage"). *)
Definition store {V} `{Stores V} (img : Image V) : M unit :=
  fun w =>
    (Ok tt,
     match backing img with
     | Some name =>
         {| calls := calls w;
            written := Some (name, {| st_header := header img;
                                      st_voxels := fun p => store_as (voxels img p) |}) |}
     | None => w
     end).

(** Modelled from the spec: [Image<V>::open (argument[0])], the volume at
    the input path seen through the value type [V]. *)
Definition Image_open (V : Type) `{Stores V} (inv : Invocation) : M (Image V) :=
  log (Opened (argument0 inv)) ;;
  ret {| backing := Some (argument0 inv);
         header := st_header (input_file inv);
         voxels := fun p => load_as (st_voxels (input_file inv) p) |}.

(** Modelled from the spec: [image.with_direct_io()], the same view with
    its voxels held in memory. *)
Definition with_direct_io {V} (img : Image V) : M (Image V) :=
  match backing img with
  | Some name => log (DirectIO name) ;; ret img
  | None => ret img
  end.

(** Modelled from the spec: [Image<V>::scratch (header, label)], a buffer of
    zeros with the geometry of [header] and no file behind it. *)
Definition Image_scratch (V : Type) `{ValueType V} (h : Header) (label : string)
  : M (Image V) :=
  log (Scratch h label) ;;
  ret {| backing := None; header := h; voxels := fun _ => vzero |}.

(** Modelled from the spec: [Image<V>::create (name, header)], a new volume
    of zeros at [name] with the header the filter computed ("allocation is
    the driver's/storage collaborator's responsibility, using the header
    the filter computed"). A failure to create the volume is not
    modelled. *)
Definition Image_create (V : Type) `{ValueType V} `{Stores V}
  (name : string) (h : Header) : M (Image V) :=
  log (Created name h) ;;
  let img := {| backing := Some name; header := h; voxels := fun _ => vzero |} in
  store img ;;
  ret img.

Arguments Image_open V {_} inv.
Arguments Image_scratch V {_} h label.
Arguments Image_create V {_ _} name h.

(** ** Setters of the filter objects

    Each setter keeps its argument in the field of its name and is entered
    in the log. The checks the classes make on what they are given (the
    ConfigurationError of the spec for an "axis index out of range", for an
    extent that is not "odd and positive" or not of "length ... 1 or 3", for
    a negative stdev) are theirs, not [run]'s, and are not modelled: every
    setter returns normally here, and a property of [run] that depends on
    it is stated of the runs that return normally. *)

Section Setters.

Context {F : Type} `{FilterClass F}.

Definition with_hdr (filter : F) (h : Header) : F :=
  with_base filter {| hdr := h; message := message (base filter) |}.

(** Modelled from the spec: [filter.set_message (msg)]. *)
Definition set_message (filter : F) (msg : string) : M F :=
  log (Configured (SetMessage msg)) ;;
  ret (with_base filter {| hdr := hdr (base filter); message := msg |}).

(** Modelled from the spec: [filter.datatype() = dt]. *)
Definition set_datatype (filter : F) (dt : DataType) : M F :=
  log (Configured (SetDatatype dt)) ;;
  ret (with_hdr filter (with_datatype (hdr (base filter)) dt)).

Fixpoint restride (axes : list Axis) (l : list Z) : list Axis :=
  match axes, l with
  | a :: axes', s :: l' =>
      {| size := size a; vox := vox a; stride := s |} :: restride axes' l'
  | _, _ => axes
  end.

(** Modelled from the spec: [Stride::set_from_command_line (filter)], the
    stride selection that "overrides computed output strides" when the
    option is given. *)
Definition Stride_set_from_command_line (inv : Invocation) (filter : F) : M F :=
  log (Configured (SetStrides (opt_strides inv))) ;;
  ret match opt_strides inv with
      | Some l =>
          with_hdr filter
            {| axes_ := restride (axes_ (hdr (base filter))) l;
               datatype_ := datatype_ (hdr (base filter)) |}
      | None => filter
      end.

End Setters.

(** Modelled from the spec: [filter.set_axes (axes)]; the list is kept as
    given, the range check of the class is not modelled. *)
Definition FFT_set_axes (filter : FFT) (l : list Z) : M FFT :=
  log (Configured (SetAxes l)) ;;
  ret {| fft_base := fft_base filter; fft_inverse := fft_inverse filter;
         fft_axes := l; fft_centre_zero := fft_centre_zero filter |}.

(** Modelled from the spec: [filter.set_centre_zero (b)]. *)
Definition FFT_set_centre_zero (filter : FFT) (b : bool) : M FFT :=
  log (Configured (SetCentreZero b)) ;;
  ret {| fft_base := fft_base filter; fft_inverse := fft_inverse filter;
         fft_axes := fft_axes filter; fft_centre_zero := b |}.

(** Modelled from the spec: "[stdev] length must be 1 (broadcast to all 3
    spatial axes) or exactly 3": the gradient filter keeps one value per
    spatial axis when it is given one. *)
Definition broadcast (l : list default_type) : list default_type :=
  match l with
  | [s] => [s; s; s]
  | _ => l
  end.

(** Modelled from the spec: [filter.set_stdev (stdev)] of the gradient
    filter. *)
Definition Gradient_set_stdev (filter : Gradient) (l : list default_type) : M Gradient :=
  log (Configured (SetStdev l)) ;;
  ret {| grad_base := grad_base filter; grad_magnitude := grad_magnitude filter;
         grad_stdev := broadcast l; grad_wrt_scanner := grad_wrt_scanner filter |}.

(** Modelled from the spec: [filter.compute_wrt_scanner (b)]. *)
Definition Gradient_compute_wrt_scanner (filter : Gradient) (b : bool) : M Gradient :=
  log (Configured (ComputeWrtScanner b)) ;;
  ret {| grad_base := grad_base filter; grad_magnitude := grad_magnitude filter;
         grad_stdev := grad_stdev filter; grad_wrt_scanner := b |}.

(** Modelled from the spec: [filter.set_extent (extent)] of the median
    filter; the list is kept as given, the check of its length and of its
    values by the class is not modelled. *)
Definition Median_set_extent (filter : Median) (l : list Z) : M Median :=
  log (Configured (SetExtent l)) ;;
  ret {| med_base := med_base filter; med_extent := l |}.

(** Modelled from the spec: [filter.set_stdev (stdev)] of the smooth
    filter; the list is kept as given, the check of its values by the class
    is not modelled. *)
Definition Smooth_set_stdev (filter : Smooth) (l : list default_type) : M Smooth :=
  log (Configured (SetStdev l)) ;;
  ret {| sm_base := sm_base filter; sm_stdev := l; sm_extent := sm_extent filter |}.

(** Modelled from the spec: [filter.set_extent (extent)] of the smooth
    filter; the list is kept as given, the check of its values by the class
    is not modelled. *)
Definition Smooth_set_extent (filter : Smooth) (l : list Z) : M Smooth :=
  log (Configured (SetExtent l)) ;;
  ret {| sm_base := sm_base filter; sm_stdev := sm_stdev filter; sm_extent := l |}.

(** Modelled from the spec: the call operator [filter (input, output)] of
    the four classes. "Filters are executed via a call operator taking
    (input, output) ...: state ... is fixed at construction/configuration
    time and not meant to be mutated mid-transform": the operator reads the
    filter and the input and fills the output. [CallBegin] and [CallEnd]
    mark where the call stands among the statements of [run]; what the
    operator does to its own filter while it runs is not in the sources and
    nothing is proved of it. *)
Definition call {F V W} `{FilterClass F} `{Stores W}
  (kernel : F -> (Pos -> V) -> Pos -> W)
  (filter : F) (input : Image V) (output : Image W) : M (Image W) :=
  log (CallBegin (any filter)) ;;
  let output' := with_voxels output (kernel filter (voxels input)) in
  store output' ;;
  log (CallEnd (any filter)) ;;
  ret output'.

(** Modelled from the spec: the conversion of a [type_choice] argument to
    the index of its value in the list of choices; a value that is not in
    the list is a configuration error ("unknown filter name"). *)
Fixpoint index_of (choices : list string) (s : string) : option nat :=
  match choices with
  | [] => None
  | c :: rest =>
      if String.eqb s c then Some O
      else match index_of rest s with
           | Some i => Some (S i)
           | None => None
           end
  end.

(** Modelled from the spec: [const size_t i = argument], for an argument
    declared with [type_choice (choices)]. *)
Definition as_choice (choices : list string) (s : string) : M nat :=
  match index_of choices s with
  | Some i => ret i
  | None => throw "unknown filter name"
  end.

(** ** [run] *)

Local Open Scope string_scope.

Section Run.

Variable K : Numerics.

(** Whether the program was compiled with [NDEBUG], which turns [assert]
    into nothing. *)
Variable NDEBUG : bool.

(* assert (c) *)
Definition assert_ (c : bool) : M unit :=
  if NDEBUG then ret tt
  else if c then ret tt
  else fun w => (AssertFail, w).

(** The second pass of the FFT filter with [-magnitude]:
    [LoopInOrder loop (output);
     for (auto l = loop (temp, output); l; ++l)
       output.value() = std::abs (cdouble (temp.value()));]
    [LoopInOrder] is not part of the sources. Modelled from the spec (the
    Iteration Engine): the loop goes through "the Cartesian product of axis
    indices", here of [output], "advancing per-image cursors in lock-step",
    so [temp] and [output] are read and written at the same position.
    [std::abs] gives a double and [output] is an [Image<float>]: the
    assignment narrows the modulus to a 32-bit float. *)
Definition magnitude_loop (temp : Image cdouble) (output : Image float)
  : M (Image float) :=
  log (VoxelLoop (backing output)) ;;
  let output' :=
    fold_left (fun out p => set_voxel out p (narrow (std_abs K (voxels temp p))))
              (positions (dims (header output))) output in
  store output' ;;
  ret output'.

(* case 0: FFT *)
Definition run_fft (inv : Invocation) : M unit :=
  input <- Image_open cdouble inv ;;
  input <- with_direct_io input ;;
  let filter := FFT_new (header input) (opt_inverse inv) in
  filter <- match opt_axes inv with
            | Some l => FFT_set_axes filter l
            | None => ret filter
            end ;;
  filter <- FFT_set_centre_zero filter (opt_centre_zero inv) ;;
  filter <- Stride_set_from_command_line inv filter ;;
  filter <- set_message filter
              ("applying FFT filter to image " ++ argument0 inv ++ "...") ;;
  if opt_magnitude inv then
    temp <- Image_scratch cdouble (hdr (base filter)) "complex FFT result" ;;
    temp <- call (fft_kernel K) filter input temp ;;
    filter <- set_datatype filter Float32 ;;
    output <- Image_create float (argument2 inv) (hdr (base filter)) ;;
    _ <- magnitude_loop temp output ;;
    ret tt
  else
    output <- Image_create cdouble (argument2 inv) (hdr (base filter)) ;;
    _ <- call (fft_kernel K) filter input output ;;
    ret tt.

(* for (size_t i = 0; i < stdev.size(); ++i)
     if (stdev[i] < 0.0)
       throw Exception ("the Gaussian stdev values cannot be negative"); *)
Definition check_not_negative (stdev : list default_type) : M unit :=
  for_ (List.length stdev) 0
    (fun i _ =>
       x <- lift (vec_get stdev i) ;;
       if (x <? 0)%float
       then throw "the Gaussian stdev values cannot be negative"
       else ret tt)
    tt.

(* stdev.resize (filter.ndim(), 0.0);
   for (size_t dim = 0; dim != 3; ++dim)
     stdev[dim] = filter.voxsize (dim); *)
Definition default_stdev (filter : Gradient) : M (list default_type) :=
  let stdev := vec_resize [] (ndim (hdr (base filter))) 0%float in
  for_ 3 0
    (fun dim stdev =>
       v <- lift (voxsize (hdr (base filter)) dim) ;;
       lift (vec_set stdev dim v))
    stdev.

(* case 1: Gradient *)
Definition run_gradient (inv : Invocation) : M unit :=
  input <- Image_open float inv ;;
  let filter := Gradient_new (header input) (opt_magnitude inv) in
  stdev <- match opt_stdev inv with
           | Some stdev =>
               check_not_negative stdev ;;
               if negb (List.length stdev =? 1)%nat && negb (List.length stdev =? 3)%nat
               then throw "unexpected number of elements specified in Gaussian stdev"
               else ret stdev
           | None => default_stdev filter
           end ;;
  filter <- Gradient_set_stdev filter stdev ;;
  filter <- Gradient_compute_wrt_scanner filter (if opt_scanner inv then true else false) ;;
  filter <- set_message filter
              ("applying " ++ argument1 inv ++ " filter to image "
               ++ argument0 inv ++ "...") ;;
  filter <- Stride_set_from_command_line inv filter ;;
  output <- Image_create float (argument2 inv) (hdr (base filter)) ;;
  _ <- call (gradient_kernel K) filter input output ;;
  ret tt.

(* case 2: Median *)
Definition run_median (inv : Invocation) : M unit :=
  input <- Image_open float inv ;;
  let filter := Median_new (header input) in
  filter <- match opt_extent inv with
            | Some l => Median_set_extent filter l
            | None => ret filter
            end ;;
  filter <- set_message filter
              ("applying " ++ argument1 inv ++ " filter to image "
               ++ argument0 inv ++ "...") ;;
  filter <- Stride_set_from_command_line inv filter ;;
  output <- Image_create float (argument2 inv) (hdr (base filter)) ;;
  _ <- call (median_kernel K) filter input output ;;
  ret tt.

(* for (size_t d = 0; d < stdevs.size(); ++d)
     stdevs[d] = stdevs[d] / 2.3548;  //convert FWHM to stdev

   The literal is the double nearest to 2.3548, in the program as here. *)
Definition fwhm_to_stdev (stdevs : list default_type) : M (list default_type) :=
  for_ (List.length stdevs) 0
    (fun d stdevs =>
       x <- lift (vec_get stdevs d) ;;
       lift (vec_set stdevs d (x / 2.3548)%float))
    stdevs.

(* case 3: Smooth *)
Definition run_smooth (inv : Invocation) : M unit :=
  input <- Image_open float inv ;;
  let filter := Smooth_new (header input) in
  let stdev_supplied := match opt_stdev inv with Some _ => true | None => false end in
  filter <- match opt_stdev inv with
            | Some l => Smooth_set_stdev filter l
            | None => ret filter
            end ;;
  filter <- match opt_fwhm inv with
            | Some l =>
                (if stdev_supplied
                 then throw "the stdev and FWHM options are mutually exclusive."
                 else ret tt) ;;
                stdevs <- fwhm_to_stdev l ;;
                Smooth_set_stdev filter stdevs
            | None => ret filter
            end ;;
  filter <- match opt_extent inv with
            | Some l => Smooth_set_extent filter l
            | None => ret filter
            end ;;
  filter <- set_message filter
              ("applying " ++ argument1 inv ++ " filter to image "
               ++ argument0 inv ++ "...") ;;
  filter <- Stride_set_from_command_line inv filter ;;
  output <- Image_create float (argument2 inv) (hdr (base filter)) ;;
  _ <- call (smooth_kernel K) filter input output ;;
  ret tt.

(** [switch (filter_index) { ... }] *)
Definition run_switch (inv : Invocation) (filter_index : nat) : M unit :=
  match filter_index with
  | 0 => run_fft inv
  | 1 => run_gradient inv
  | 2 => run_median inv
  | 3 => run_smooth inv
  | _ => assert_ false ;; ret tt     (* default: assert (0); break; *)
  end.

(** [void run ()]: [const size_t filter_index = argument[1];] and the
    switch. *)
Definition run (inv : Invocation) : M unit :=
  filter_index <- as_choice filters (argument1 inv) ;;
  run_switch inv filter_index.

End Run.

(** ** What a run shows *)

(** The test of the validation loop of the gradient filter. *)
Definition negative (x : default_type) : bool := (x <? 0)%float.

(** The lists handed to [set_stdev], in order. *)
Fixpoint stdev_passed (l : list Event) : list (list default_type) :=
  match l with
  | [] => []
  | Configured (SetStdev s) :: rest => s :: stdev_passed rest
  | _ :: rest => stdev_passed rest
  end.

(** The calls that read or write voxels or create a volume; opening the
    input and setting up the filter are not among them. *)
Definition touches_image_data (e : Event) : bool :=
  match e with
  | DirectIO _ | Scratch _ _ | Created _ _
  | CallBegin _ | CallEnd _ | VoxelLoop _ => true
  | Opened _ | Configured _ => false
  end.

(** The setters of a log, in order. *)
Fixpoint settings (l : list Event) : list Setting :=
  match l with
  | [] => []
  | Configured s :: rest => s :: settings rest
  | _ :: rest => settings rest
  end.

(** The setters that follow the entry into a call operator: the changes
    made to a filter once it has been put to use. *)
Fixpoint settings_from_call (l : list Event) : list Setting :=
  match l with
  | [] => []
  | CallBegin _ :: rest => settings rest
  | _ :: rest => settings_from_call rest
  end.

(** A log in which the filter is left as it was configured from the moment
    its call operator is entered. *)
Definition fixed_once_configured (l : list Event) : Prop :=
  settings_from_call l = [].

(** How many times a call operator was entered. *)
Fixpoint calls_begun (l : list Event) : nat :=
  match l with
  | [] => 0
  | CallBegin _ :: rest => S (calls_begun rest)
  | _ :: rest => calls_begun rest
  end.

(** The one setter of [run] that stands after a call: with [-magnitude]
    the FFT filter is retyped, [filter.datatype() = DataType::Float32]. *)
Definition retyping (inv : Invocation) : list Setting :=
  if String.eqb (argument1 inv) "fft" && opt_magnitude inv
  then [SetDatatype Float32]
  else [].

(** A run that calls its filter at most once, makes the changes [after] to
    it from the call on, and does not abort. *)
Definition orderly (after : list Setting) (r : Outcome unit * World) : Prop :=
  (calls_begun (calls (snd r)) <= 1
   /\ settings_from_call (calls (snd r)) = after)
  /\ fst r <> AssertFail.

(** ** Sample inputs *)

(** Kernels that copy their input, and the textbook modulus. *)
Definition identity_numerics : Numerics :=
  {| fft_kernel := fun _ v p => v p;
     gradient_kernel := fun _ v p => v p;
     median_kernel := fun _ v p => v p;
     smooth_kernel := fun _ v p => v p;
     std_abs := fun z => PrimFloat.sqrt (fst z * fst z + snd z * snd z)%float |}.

Definition axis (n : nat) (v : float) (s : Z) : Axis :=
  {| size := n; vox := v; stride := s |}.

(** A 2 x 2 x 2 x 2 real volume of ones: voxels of 2 mm, volumes 3 apart. *)
Definition volume4 : Stored :=
  {| st_header := {| axes_ := [axis 2 2 1; axis 2 2 2; axis 2 2 3; axis 2 3 4];
                     datatype_ := Float32 |};
     st_voxels := fun _ => Real 1 |}.

(** A 2 x 2 x 2 complex volume whose voxels are all 1 + i. *)
Definition complex_volume : Stored :=
  {| st_header := {| axes_ := [axis 2 2 1; axis 2 2 2; axis 2 2 3];
                     datatype_ := CFloat32 |};
     st_voxels := fun _ => Complex (1%float, 1%float) |}.

(** The filter [name] on the volume [file], with [-magnitude]. *)
Definition invoke_on (file : Stored) (name : string) : Invocation :=
  {| argument0 := "in.mif"; argument1 := name; argument2 := "out.mif";
     input_file := file;
     opt_axes := None; opt_inverse := false; opt_magnitude := true;
     opt_centre_zero := false; opt_stdev := None; opt_scanner := false;
     opt_extent := None; opt_fwhm := None; opt_strides := None |}.

Definition invoke (name : string) (magnitude : bool)
  (stdev fwhm : option (list default_type)) : Invocation :=
  {| argument0 := "in.mif"; argument1 := name; argument2 := "out.mif";
     input_file := volume4;
     opt_axes := None; opt_inverse := false; opt_magnitude := magnitude;
     opt_centre_zero := false; opt_stdev := stdev; opt_scanner := false;
     opt_extent := None; opt_fwhm := fwhm; opt_strides := None |}.

End MRFilter.

(** ** Further readings of the log of [run] *)

Module RunLog.

Import MRFilter.

(** The paths given to [Image<T>::open], in order. *)
Fixpoint opened (l : list Event) : list string :=
  match l with
  | [] => []
  | Opened name :: rest => name :: opened rest
  | _ :: rest => opened rest
  end.

(** The volumes made by [Image<T>::create]: path and header, in order. *)
Fixpoint created (l : list Event) : list (string * Header) :=
  match l with
  | [] => []
  | Created name h :: rest => (name, h) :: created rest
  | _ :: rest => created rest
  end.

(** The lists handed to [set_extent], in order. *)
Fixpoint extent_passed (l : list Event) : list (list Z) :=
  match l with
  | [] => []
  | Configured (SetExtent e) :: rest => e :: extent_passed rest
  | _ :: rest => extent_passed rest
  end.

(** The option as the list of what was given. *)
Definition given {A} (o : option A) : list A :=
  match o with
  | Some a => [a]
  | None => []
  end.

(** The same command line with [-fwhm] left out. *)
Definition without_fwhm (inv : Invocation) : Invocation :=
  {| argument0 := argument0 inv; argument1 := argument1 inv;
     argument2 := argument2 inv; input_file := input_file inv;
     opt_axes := opt_axes inv; opt_inverse := opt_inverse inv;
     opt_magnitude := opt_magnitude inv;
     opt_centre_zero := opt_centre_zero inv; opt_stdev := opt_stdev inv;
     opt_scanner := opt_scanner inv; opt_extent := opt_extent inv;
     opt_fwhm := None; opt_strides := opt_strides inv |}.

(** The command line with the options the chosen filter does not read
    taken out: [filter_index] is the index of the filter in [filters]. *)
Definition own_options (filter_index : nat) (inv : Invocation) : Invocation :=
  let fft := (filter_index =? 0)%nat in
  let gradient := (filter_index =? 1)%nat in
  let median := (filter_index =? 2)%nat in
  let smooth := (filter_index =? 3)%nat in
  {| argument0 := argument0 inv; argument1 := argument1 inv;
     argument2 := argument2 inv; input_file := input_file inv;
     opt_axes := if fft then opt_axes inv else None;
     opt_inverse := if fft then opt_inverse inv else false;
     opt_magnitude := if fft || gradient then opt_magnitude inv else false;
     opt_centre_zero := if fft then opt_centre_zero inv else false;
     opt_stdev := if gradient || smooth then opt_stdev inv else None;
     opt_scanner := if gradient then opt_scanner inv else false;
     opt_extent := if median || smooth then opt_extent inv else None;
     opt_fwhm := if smooth then opt_fwhm inv else None;
     opt_strides := opt_strides inv |}.

(** A run that, if it returns normally, has opened the input path and
    nothing else, called its filter once, and written one volume, at the
    output path, with the header it was created with. *)
Definition settled (inv : Invocation) (r : Outcome unit * World) : Prop :=
  fst r = Ok tt ->
  opened (calls (snd r)) = [argument0 inv]
  /\ calls_begun (calls (snd r)) = 1
  /\ exists out, written (snd r) = Some (argument2 inv, out)
                 /\ created (calls (snd r)) = [(argument2 inv, st_header out)].


(** An invocation with every option of every filter given at once. *)
Definition everything (name : string) : Invocation :=
  {| argument0 := "in.mif"; argument1 := name; argument2 := "out.mif";
     input_file := volume4;
     opt_axes := Some [0; 1]%Z; opt_inverse := true; opt_magnitude := true;
     opt_centre_zero := true; opt_stdev := Some [1%float];
     opt_scanner := true; opt_extent := Some [5]%Z;
     opt_fwhm := Some [2%float]; opt_strides := Some [1; 2; 3; 4]%Z |}.

End RunLog.

(** * The shell script [foreach]: its command line

    [bin/foreach] runs a command once per target. What follows is the part
    of the script that reads its own arguments (up to the test for a
    missing command); the substitutions and the launch of the jobs go
    through [basename], [sed], [rev] and [xargs] and are not modelled. *)

Module Foreach.

Local Open Scope string_scope.

(** The double quote, as a string; the dot and the dash, as characters. *)
Definition dquote : string := String (Ascii.ascii_of_nat 34) EmptyString.
Definition dot : Ascii.ascii := Ascii.ascii_of_nat 46.
Definition dash : Ascii.ascii := Ascii.ascii_of_nat 45.

(** The shell variables the script sets while it reads its arguments:
    [args=()], [njobs=""], [verbose=""]. *)
Record Vars : Type := {
  args : list string;
  njobs : string;
  verbose : string
}.

Definition unset : Vars := {| args := []; njobs := EmptyString; verbose := EmptyString |}.

(** One turn of the first loop on [$1], when [$1] is not the colon:
    [if [ "x$1" == "x-v" ]; then verbose="true"
     elif [ "x${1:0:1}" == "x-" ]; then njobs="-P ${1:1} "
     else args+=("$1"); fi] *)
Definition read_word (word : string) (v : Vars) : Vars :=
  if String.eqb ("x" ++ word) "x-v" then
    {| args := args v; njobs := njobs v; verbose := "true" |}
  else if String.eqb ("x" ++ substring 0 1 word) "x-" then
    {| args := args v;
       njobs := "-P " ++ substring 1 (String.length word) word ++ " ";
       verbose := verbose v |}
  else
    {| args := args v ++ [word]; njobs := njobs v; verbose := verbose v |}.

(** [while (( "$#" )); do
       if [ "x$1" == "x:" ]; then break; fi
       ...
       shift
     done]: the variables and the positional parameters when the loop is
    left (on [break] the colon is still [$1]). *)
Fixpoint targets_loop (params : list string) (v : Vars) : Vars * list string :=
  match params with
  | [] => (v, [])
  | word :: rest =>
      if String.eqb ("x" ++ word) "x:" then (v, params)
      else targets_loop rest (read_word word v)
  end.

(** [shift]: with no positional parameter left it does nothing. *)
Definition shift (params : list string) : list string :=
  match params with
  | [] => []
  | _ :: rest => rest
  end.

(** [while (( "$#" )); do cmd+="\"$1\" "; shift; done] *)
Fixpoint command_loop (params : list string) (cmd : string) : string :=
  match params with
  | [] => cmd
  | word :: rest => command_loop rest (cmd ++ dquote ++ word ++ dquote ++ " ")
  end.

(** How the script leaves its first part: with [exit 1] after printing a
    text, or on to the per-target loop with its variables and [cmd]. *)
Inductive Outcome : Type :=
| Exit1 (printed : string)
| Launch (v : Vars) (cmd : string).

(** Lines 3 to 104 of the script. [help_page] is the text of the here
    document; [env_cmd] is the value of [cmd] in the environment, which the
    script appends to without setting it first. *)
Definition foreach (help_page env_cmd : string) (params : list string) : Outcome :=
  if (List.length params =? 0)%nat then Exit1 help_page
  else
    let (v, left) := targets_loop params unset in
    let cmd := command_loop (shift left) env_cmd in
    if String.eqb ("x" ++ cmd) "x"
    then Exit1 "error: no command specified!"
    else Launch v cmd.

(** [pre="${name%.*}"]: the shortest suffix of [name] that matches the
    pattern is removed; [None] when no suffix matches. A longer suffix is
    tried only when no shorter one matches. *)
Fixpoint remove_shortest_suffix (matches : string -> bool) (name : string)
  : option string :=
  match name with
  | EmptyString => if matches EmptyString then Some EmptyString else None
  | String c rest =>
      match remove_shortest_suffix matches rest with
      | Some kept => Some (String c kept)
      | None => if matches name then Some EmptyString else None
      end
  end.

(** The pattern [.*]: a dot, then anything. *)
Definition dot_star (s : string) : bool :=
  match s with
  | String c _ => Ascii.eqb c dot
  | EmptyString => false
  end.

(** [${name%.*}] *)
Definition strip_extension (name : string) : string :=
  match remove_shortest_suffix dot_star name with
  | Some kept => kept
  | None => name
  end.

(** What the script's comments call a word: [quoted w] is ["w" ]. *)
Definition quoted (word : string) : string := dquote ++ word ++ dquote ++ " ".

(** Whether a word starts with a dash. *)
Definition dashed (word : string) : bool :=
  match word with
  | String c _ => Ascii.eqb c dash
  | EmptyString => false
  end.

(** The job option the script is left with after the words [l]: the last
    dashed word other than [-v] decides. *)
Fixpoint jobs_of (l : list string) (njobs : string) : string :=
  match l with
  | [] => njobs
  | word :: rest =>
      jobs_of rest
        (if String.eqb word "-v" then njobs
         else if dashed word
              then "-P " ++ substring 1 (String.length word) word ++ " "
              else njobs)
  end.

(** The variables after the first loop has read the words [l], none of
    them the colon. *)
Definition read_all (l : list string) (v : Vars) : Vars :=
  fold_left (fun v word => read_word word v) l v.

(** The words before the first colon, and the words after it. *)
Fixpoint before_colon (l : list string) : list string :=
  match l with
  | [] => []
  | word :: rest => if String.eqb word ":" then [] else word :: before_colon rest
  end.

Fixpoint after_colon (l : list string) : list string :=
  match l with
  | [] => []
  | word :: rest => if String.eqb word ":" then rest else after_colon rest
  end.

(** The words of a list, one after the other. *)
Definition join (l : list string) : string := fold_right append EmptyString l.

(** Whether a word sets the job count: it is dashed and is not [-v]. *)
Definition sets_jobs (word : string) : bool :=
  dashed word && negb (String.eqb word "-v").

(** Whether a string holds a given character. *)
Fixpoint has_char (c : Ascii.ascii) (s : string) : bool :=
  match s with
  | EmptyString => false
  | String d rest => Ascii.eqb d c || has_char c rest
  end.

End Foreach.

(** * Properties *)

Unset Implicit Arguments.

(** ** [Adapter::AllowEmpty] *)

Section AllowEmptyFacts.

Context {value_type : Type} `{ValueType value_type}.

(** C2. An [AllowEmpty] adapter whose parent is not valid: [size (axis)] and
    [index (axis)] return 0 for every axis, [value()] returns
    [value_if_empty], and [reset()], [move_index (axis, delta)] and a write
    through [value()] return normally and leave the adapter as it was: the
    same parent, and no call on it recorded. *)
Theorem allow_empty_invalid_parent (a : Adapter.AllowEmpty value_type) :
  Adapter.valid a = false ->
  (forall axis, Adapter.size a axis = (Ok 0%Z, a))
  /\ (forall axis, Adapter.index a axis = (Ok 0%Z, a))
  /\ Adapter.value a = (Ok (Adapter.value_if_empty a), a)
  /\ Adapter.reset a = (Ok tt, a)
  /\ (forall axis delta, Adapter.move_index a axis delta = (Ok tt, a))
  /\ (forall val, Adapter.set_value a val = (Ok tt, a)).
Proof.
  intros Hinvalid.
  unfold Adapter.size, Adapter.index, Adapter.value, Adapter.reset,
    Adapter.move_index, Adapter.set_value.
  rewrite Hinvalid. repeat split.
Qed.

(** C10. An [AllowEmpty] constructed without its second argument holds
    [value_type (0.0)], the zero of the value type, and [value()] on a parent
    that is not valid returns it. *)
Theorem allow_empty_default_is_zero (original : Adapter.ImageType value_type) :
  Adapter.img_valid original = false ->
  Adapter.value_if_empty (Adapter.AllowEmpty_new original None) = vzero
  /\ Adapter.value (Adapter.AllowEmpty_new original None)
     = (Ok vzero, Adapter.AllowEmpty_new original None).
Proof.
  intros Hinvalid.
  assert (Hdefault :
            Adapter.value_if_empty (Adapter.AllowEmpty_new original None) = vzero).
  { cbn. apply of_double_zero. }
  split; [exact Hdefault|].
  unfold Adapter.value, Adapter.valid.
  cbn [Adapter.parent_ Adapter.AllowEmpty_new].
  rewrite Hinvalid. now rewrite Hdefault.
Qed.

End AllowEmptyFacts.

Lemma allow_empty_invalid_parent_witness :
  (forall axis, Adapter.size Adapter.empty_adapter axis
                = (Ok 0%Z, Adapter.empty_adapter))
  /\ (forall axis, Adapter.index Adapter.empty_adapter axis
                   = (Ok 0%Z, Adapter.empty_adapter))
  /\ Adapter.value Adapter.empty_adapter = (Ok 7%float, Adapter.empty_adapter)
  /\ Adapter.reset Adapter.empty_adapter = (Ok tt, Adapter.empty_adapter)
  /\ (forall axis delta, Adapter.move_index Adapter.empty_adapter axis delta
                         = (Ok tt, Adapter.empty_adapter))
  /\ (forall val, Adapter.set_value Adapter.empty_adapter val
                  = (Ok tt, Adapter.empty_adapter)).
Proof. exact (allow_empty_invalid_parent Adapter.empty_adapter eq_refl). Defined.

Lemma allow_empty_default_is_zero_witness :
  Adapter.value_if_empty (Adapter.AllowEmpty_new (Adapter.no_image cdouble) None)
  = (0%float, 0%float)
  /\ Adapter.value (Adapter.AllowEmpty_new (Adapter.no_image cdouble) None)
     = (Ok (0%float, 0%float),
        Adapter.AllowEmpty_new (Adapter.no_image cdouble) None).
Proof. exact (allow_empty_default_is_zero (Adapter.no_image cdouble) eq_refl). Defined.

(** The parent of [empty_adapter] is one that fails when touched: each of
    its operations, called without the guard, is a fault. *)
Example invalid_parent_fails_if_touched :
  fst (Adapter.parent_value Adapter.empty_adapter) = Undefined
  /\ fst (Adapter.parent_index Adapter.empty_adapter 0) = Undefined
  /\ fst (Adapter.parent_index_add Adapter.empty_adapter 0 1%Z) = Undefined
  /\ fst (Adapter.parent_set_value Adapter.empty_adapter 1%float) = Undefined
  /\ fst (Adapter.set_pos Adapter.empty_adapter 0 0%Z) = Undefined.
Proof. repeat split. Qed.

(** On a valid parent the same methods do go through to it: the value read
    is the parent's voxel, and every call is recorded. *)
Example allow_empty_valid_parent_is_used :
  let a := Adapter.AllowEmpty_new Adapter.small_image (Some 7%float) in
  fst (Adapter.value a) = Ok 1%float
  /\ Adapter.touched (snd (Adapter.value a)) = [Adapter.GetValue]
  /\ fst (Adapter.size a 1) = Ok 2%Z
  /\ Adapter.touched (snd (Adapter.reset a))
     = [Adapter.SetPos 0 0%Z; Adapter.SetPos 1 0%Z]
  /\ Adapter.img_index (Adapter.parent_ (snd (Adapter.move_index a 1 1%Z)))
     = [0; 1]%Z
  /\ Adapter.img_voxels (Adapter.parent_ (snd (Adapter.set_value a 5%float)))
       [0; 0]%Z = 5%float.
Proof. cbv zeta. repeat split. Qed.

(** ** The loops of [run] *)

Import MRFilter.
Local Open Scope string_scope.

Lemma vec_get_app {A} (pre suf : list A) (x : A) :
  vec_get (pre ++ x :: suf)%list (List.length pre) = Ok x.
Proof.
  unfold vec_get. rewrite nth_error_app2 by lia. now rewrite Nat.sub_diag.
Qed.

Lemma vec_set_app {A} (pre suf : list A) (x y : A) :
  vec_set (pre ++ x :: suf)%list (List.length pre) y = Ok (pre ++ y :: suf)%list.
Proof.
  induction pre as [|a pre IH]; simpl; [reflexivity|]. now rewrite IH.
Qed.

Lemma repeat_nth_error {A} (x : A) (n d : nat) :
  d < n -> nth_error (repeat x n) d = Some x.
Proof.
  revert d. induction n as [|n IH]; intros d Hd; [lia|].
  destruct d; simpl; [reflexivity|]. apply IH. lia.
Qed.

(** A computation that leaves the world alone can be run ahead of time. *)
Lemma bind_pure {A B} (m : M A) (k : A -> M B) (w : World) (o : Outcome A) :
  m w = (o, w) ->
  bind m k w = match o with
               | Ok a => k a w
               | Throw msg => (Throw msg, w)
               | AssertFail => (AssertFail, w)
               | Undefined => (Undefined, w)
               end.
Proof. intros E. unfold bind. rewrite E. now destruct o. Qed.

(** The validation loop, started at index [length pre] of [pre ++ suf]. *)
Lemma check_loop (pre suf : list default_type) (w : World) :
  for_ (List.length suf) (List.length pre)
    (fun i (_ : unit) =>
       x <- lift (vec_get (pre ++ suf)%list i) ;;
       if (x <? 0)%float
       then throw "the Gaussian stdev values cannot be negative"
       else ret tt) tt w
  = (if existsb negative suf
     then Throw "the Gaussian stdev values cannot be negative"
     else Ok tt, w).
Proof.
  revert pre. induction suf as [|x suf IH]; intros pre; simpl; [reflexivity|].
  unfold bind at 1. unfold bind at 1. unfold lift at 1.
  rewrite vec_get_app. unfold negative at 1.
  destruct (x <? 0)%float; simpl; [reflexivity|].
  specialize (IH (pre ++ [x])%list).
  rewrite <- app_assoc in IH. simpl in IH.
  rewrite length_app in IH. simpl in IH. rewrite Nat.add_1_r in IH.
  exact IH.
Qed.

Lemma check_not_negative_spec (stdev : list default_type) (w : World) :
  check_not_negative stdev w
  = (if existsb negative stdev
     then Throw "the Gaussian stdev values cannot be negative"
     else Ok tt, w).
Proof. exact (check_loop [] stdev w). Qed.

Lemma supplied_stdev_spec (l : list default_type) (w : World) :
  (check_not_negative l ;;
   if negb (List.length l =? 1)%nat && negb (List.length l =? 3)%nat
   then throw "unexpected number of elements specified in Gaussian stdev"
   else ret l) w
  = (if existsb negative l
     then Throw "the Gaussian stdev values cannot be negative"
     else if negb (List.length l =? 1)%nat && negb (List.length l =? 3)%nat
          then Throw "unexpected number of elements specified in Gaussian stdev"
          else Ok l, w).
Proof.
  rewrite (bind_pure _ _ _ _ (check_not_negative_spec l w)).
  destruct (existsb negative l); [reflexivity|].
  now destruct (negb (List.length l =? 1)%nat && negb (List.length l =? 3)%nat).
Qed.

(** The conversion loop, with [pre] already converted. *)
Lemma fwhm_loop (pre suf : list default_type) (w : World) :
  for_ (List.length suf) (List.length pre)
    (fun d stdevs =>
       x <- lift (vec_get stdevs d) ;;
       lift (vec_set stdevs d (x / 2.3548)%float)) (pre ++ suf)%list w
  = (Ok (pre ++ map (fun x => (x / 2.3548)%float) suf)%list, w).
Proof.
  revert pre. induction suf as [|x suf IH]; intros pre; simpl.
  - now rewrite !app_nil_r.
  - unfold bind at 1. unfold bind at 1. unfold lift at 1.
    rewrite vec_get_app. unfold lift at 1. rewrite vec_set_app.
    specialize (IH (pre ++ [(x / 2.3548)%float])%list).
    rewrite <- !app_assoc in IH. simpl in IH.
    rewrite length_app in IH. simpl in IH. rewrite Nat.add_1_r in IH.
    exact IH.
Qed.

Lemma fwhm_to_stdev_spec (l : list default_type) (w : World) :
  fwhm_to_stdev l w = (Ok (map (fun x => (x / 2.3548)%float) l), w).
Proof. exact (fwhm_loop [] l w). Qed.

(** The divisor of [fwhm_to_stdev] is the double nearest to 2.3548: it is
    5302538201266022 * 2^-51, within half a unit in the last place. *)
Lemma fwhm_divisor_is_nearest_double (x : default_type) (w : World) :
  fwhm_to_stdev [x] w = (Ok [(x / 0x1.2d6a161e4f766p+1)%float], w)
  /\ Prim2SF 0x1.2d6a161e4f766p+1 = S754_finite false 5302538201266022 (-51)
  /\ (Z.abs (5302538201266022 * 10000 - 23548 * 2 ^ 51) <= 5000)%Z.
Proof.
  split; [reflexivity|]. split; [reflexivity|]. vm_compute. discriminate.
Qed.

Lemma default_stdev_spec
  (filter : Gradient) (a0 a1 a2 : Axis) (rest : list Axis) (w : World) :
  axes_ (hdr (base filter)) = a0 :: a1 :: a2 :: rest ->
  default_stdev filter w
  = (Ok (vox a0 :: vox a1 :: vox a2 :: repeat 0%float (List.length rest)), w).
Proof.
  intros E. unfold default_stdev, ndim, voxsize. rewrite E. reflexivity.
Qed.

(** With fewer than three axes the loop writes past the end of [stdev]. *)
Lemma default_stdev_pure (filter : Gradient) (w : World) :
  default_stdev filter w = (Undefined, w)
  \/ exists stdev, default_stdev filter w = (Ok stdev, w).
Proof.
  unfold default_stdev, ndim, voxsize.
  destruct (axes_ (hdr (base filter))) as [|a0 [|a1 [|a2 rest]]]; simpl;
    first [left; reflexivity | right; eexists; reflexivity].
Qed.

Lemma Pos_eqb_eq (p q : Pos) : Pos_eqb p q = true <-> p = q.
Proof.
  unfold Pos_eqb. destruct (list_eq_dec Nat.eq_dec p q); split; congruence.
Qed.

(** [positions] lists exactly the positions inside the grid. *)
Lemma positions_in (extent : list nat) (p : Pos) :
  In p (positions extent) <-> Forall2 lt p extent.
Proof.
  revert p. induction extent as [|n rest IH]; intros p; simpl.
  - split.
    + intros [<-|[]]. constructor.
    + intros F. inversion F. now left.
  - rewrite in_flat_map. split.
    + intros (q & Hq & Hp). apply in_map_iff in Hp as (i & <- & Hi).
      apply in_seq in Hi. constructor; [lia|]. now apply IH.
    + intros F. inversion F as [|i n' q rest' Hi Hq]; subst.
      exists q. split; [now apply IH|].
      apply in_map_iff. exists i. split; [reflexivity|]. apply in_seq. lia.
Qed.

Lemma existsb_Pos_in (q : Pos) (ps : list Pos) :
  In q ps -> existsb (Pos_eqb q) ps = true.
Proof.
  intros Hin. apply existsb_exists. exists q.
  split; [exact Hin|]. now apply Pos_eqb_eq.
Qed.

Section VoxelLoop.

Context {V : Type} (g : Pos -> V).

(** A loop that writes [g p] at every position [p] of a list. *)
Lemma fold_set_voxel (ps : list Pos) (out : Image V) :
  let out' := fold_left (fun o p => set_voxel o p (g p)) ps out in
  backing out' = backing out /\ header out' = header out /\
  forall q, voxels out' q = if existsb (Pos_eqb q) ps then g q else voxels out q.
Proof.
  revert out. induction ps as [|p ps IH]; intros out; simpl.
  - auto.
  - destruct (IH (set_voxel out p (g p))) as (Hb & Hh & Hv).
    split; [exact Hb|]. split; [exact Hh|].
    intros q. rewrite Hv. simpl.
    destruct (Pos_eqb q p) eqn:E; simpl.
    + apply Pos_eqb_eq in E. subst q. now destruct (existsb (Pos_eqb p) ps).
    + reflexivity.
Qed.

End VoxelLoop.

Lemma magnitude_loop_spec (K : Numerics) (temp : Image cdouble)
  (name : string) (h : Header) (v0 : Pos -> float) (w : World) :
  exists v : Pos -> float,
    magnitude_loop K temp {| backing := Some name; header := h; voxels := v0 |} w
    = (Ok {| backing := Some name; header := h; voxels := v |},
       {| calls := (calls w ++ [VoxelLoop (Some name)])%list;
          written := Some (name, {| st_header := h;
                                    st_voxels := fun p => Real (v p) |}) |})
    /\ forall p, Forall2 lt p (dims h) ->
                 v p = narrow (std_abs K (voxels temp p)).
Proof.
  unfold magnitude_loop. cbn -[fold_left positions].
  destruct (fold_set_voxel (fun p => narrow (std_abs K (voxels temp p)))
              (positions (dims h))
              {| backing := Some name; header := h; voxels := v0 |})
    as (Hb & Hh & Hv).
  cbn -[fold_left positions] in Hb, Hh, Hv.
  destruct (fold_left _ _ _) as [b h' v]. cbn in Hb, Hh, Hv. subst b h'.
  exists v. split; [reflexivity|].
  intros p Hp. rewrite Hv.
  rewrite existsb_Pos_in; [reflexivity|]. now apply positions_in.
Qed.

Lemma index_of_lt (choices : list string) (s : string) (i : nat) :
  index_of choices s = Some i -> i < List.length choices.
Proof.
  revert i. induction choices as [|c rest IH]; intros i; simpl; [discriminate|].
  destruct (String.eqb s c).
  - intros [= <-]. lia.
  - destruct (index_of rest s) as [j|]; [|discriminate].
    intros [= <-]. specialize (IH j eq_refl). lia.
Qed.

Lemma index_of_nth (choices : list string) (s : string) (i : nat) :
  index_of choices s = Some i -> nth_error choices i = Some s.
Proof.
  revert i. induction choices as [|c rest IH]; intros i; simpl; [discriminate|].
  destruct (String.eqb s c) eqn:E.
  - intros [= <-]. apply String.eqb_eq in E. now subst.
  - destruct (index_of rest s) as [j|]; [|discriminate].
    intros [= <-]. simpl. now apply IH.
Qed.

Lemma negative_exists (l : list default_type) :
  existsb negative l = true <-> Exists (fun x => (x <? 0)%float = true) l.
Proof.
  rewrite existsb_exists, Exists_exists. unfold negative. tauto.
Qed.

Lemma wrong_length_eqb (l : list default_type) :
  negb (List.length l =? 1)%nat && negb (List.length l =? 3)%nat = true
  <-> List.length l <> 1 /\ List.length l <> 3.
Proof.
  rewrite andb_true_iff, !negb_true_iff, !Nat.eqb_neq. tauto.
Qed.

(** ** The four cases of [run], one by one *)

Ltac orderly_done :=
  unfold orderly; cbn;
  split; [split; [lia | reflexivity] | discriminate].

Ltac run_magnitude_loop K :=
  match goal with
  | |- context [magnitude_loop K ?t
                  {| backing := Some ?n; header := ?h; voxels := ?v |} ?w] =>
      let v' := fresh "v" in
      let Hv := fresh "Hv" in
      destruct (magnitude_loop_spec K t n h v w) as (v' & -> & Hv)
  end.

Ltac find_event := repeat (first [left; reflexivity | right]).

Lemma run_fft_orderly (K : Numerics) (inv : Invocation) :
  orderly (if opt_magnitude inv then [SetDatatype Float32] else [])
          (run_fft K inv initial).
Proof.
  unfold orderly, run_fft, Image_open, Stride_set_from_command_line.
  destruct (opt_magnitude inv).
  - destruct (opt_axes inv); destruct (opt_strides inv);
      unfold bind; cbn -[magnitude_loop]; run_magnitude_loop K; orderly_done.
  - destruct (opt_axes inv); destruct (opt_strides inv); orderly_done.
Qed.

Lemma run_gradient_orderly (K : Numerics) (inv : Invocation) :
  orderly [] (run_gradient K inv initial).
Proof.
  unfold orderly, run_gradient, Image_open, Stride_set_from_command_line.
  destruct (opt_stdev inv) as [l|].
  - cbn -[check_not_negative].
    rewrite (bind_pure _ _ _ _ (supplied_stdev_spec l _)).
    destruct (existsb negative l); [orderly_done|].
    destruct (negb (List.length l =? 1)%nat && negb (List.length l =? 3)%nat);
      [orderly_done|].
    destruct (opt_strides inv); orderly_done.
  - cbn -[default_stdev Gradient_new].
    match goal with
    | |- context [bind (default_stdev ?f) ?k ?w] =>
        destruct (default_stdev_pure f w) as [Ho|(stdev & Ho)];
        rewrite (bind_pure _ k _ _ Ho)
    end.
    + orderly_done.
    + destruct (opt_strides inv); orderly_done.
Qed.

Lemma run_median_orderly (K : Numerics) (inv : Invocation) :
  orderly [] (run_median K inv initial).
Proof.
  unfold orderly, run_median, Image_open, Stride_set_from_command_line.
  destruct (opt_extent inv); destruct (opt_strides inv); orderly_done.
Qed.

Lemma run_smooth_orderly (K : Numerics) (inv : Invocation) :
  orderly [] (run_smooth K inv initial).
Proof.
  unfold orderly, run_smooth, Image_open, Stride_set_from_command_line.
  destruct (opt_stdev inv) as [sd|]; destruct (opt_fwhm inv) as [fw|];
    try (destruct (opt_extent inv); destruct (opt_strides inv); orderly_done).
  unfold bind; cbn -[fwhm_to_stdev]; rewrite fwhm_to_stdev_spec.
  destruct (opt_extent inv); destruct (opt_strides inv); orderly_done.
Qed.

Lemma run_orderly (K : Numerics) (NDEBUG : bool) (inv : Invocation) :
  orderly (retyping inv) (run K NDEBUG inv initial).
Proof.
  unfold run, as_choice, retyping.
  destruct (index_of filters (argument1 inv)) as [i|] eqn:E.
  - pose proof (index_of_nth _ _ _ E) as Hname.
    apply index_of_lt in E. simpl in E.
    destruct i as [|[|[|[|i]]]]; try lia;
      injection Hname as Hname; rewrite <- Hname.
    + apply run_fft_orderly.
    + apply run_gradient_orderly.
    + apply run_median_orderly.
    + apply run_smooth_orderly.
  - assert (Hne : String.eqb (argument1 inv) "fft" = false).
    { apply String.eqb_neq. intros Hfft. rewrite Hfft in E. discriminate E. }
    rewrite Hne. orderly_done.
Qed.

(** [restride] changes strides only. *)
Lemma restride_vox (axes : list Axis) (l : list Z) :
  map vox (restride axes l) = map vox axes.
Proof.
  revert l. induction axes as [|a axes IH]; intros [|s l]; simpl;
    try reflexivity.
  now rewrite IH.
Qed.

Lemma voxsize_vox (h h' : Header) (d : nat) :
  map vox (axes_ h') = map vox (axes_ h) -> voxsize h' d = voxsize h d.
Proof.
  intros E. unfold voxsize.
  pose proof (nth_error_map vox d (axes_ h')) as H1.
  pose proof (nth_error_map vox d (axes_ h)) as H2.
  rewrite E in H1. rewrite H1 in H2.
  destruct (nth_error (axes_ h') d), (nth_error (axes_ h) d);
    simpl in H2; congruence.
Qed.

Lemma ndim_vox (h h' : Header) :
  map vox (axes_ h') = map vox (axes_ h) -> ndim h' = ndim h.
Proof.
  intros E. unfold ndim.
  rewrite <- (length_map vox (axes_ h')), E. apply length_map.
Qed.

(** What [run] does for the gradient filter when [-stdev] is given. *)
Lemma run_gradient_stdev (K : Numerics) (NDEBUG : bool) (inv : Invocation)
  (l : list default_type) :
  argument1 inv = "gradient" ->
  opt_stdev inv = Some l ->
  let r := run K NDEBUG inv initial in
  if existsb negative l then
    r = (Throw "the Gaussian stdev values cannot be negative",
         {| calls := [Opened (argument0 inv)]; written := None |})
  else if negb (List.length l =? 1)%nat && negb (List.length l =? 3)%nat then
    r = (Throw "unexpected number of elements specified in Gaussian stdev",
         {| calls := [Opened (argument0 inv)]; written := None |})
  else
    fst r = Ok tt /\
    stdev_passed (calls (snd r)) = [l] /\
    exists f, In (CallBegin (AnGradient f)) (calls (snd r))
              /\ grad_stdev f = broadcast l.
Proof.
  intros Hname Hopt r.
  assert (Hr : r = run_gradient K inv initial).
  { subst r. unfold run, as_choice. now rewrite Hname. }
  rewrite Hr. clear r Hr.
  unfold run_gradient. rewrite Hopt.
  unfold Image_open. cbn -[check_not_negative].
  rewrite (bind_pure _ _ _ _ (supplied_stdev_spec l _)).
  destruct (existsb negative l); [reflexivity|].
  destruct (negb (List.length l =? 1)%nat && negb (List.length l =? 3)%nat);
    [reflexivity|].
  unfold Stride_set_from_command_line; destruct (opt_strides inv); cbn;
    (split; [reflexivity|]; split; [reflexivity|];
     eexists; split; [find_event|reflexivity]).
Qed.

(** ** The claims about [run] *)

(** C1. The smooth filter given both [-stdev] and [-fwhm]: [run] throws
    "the stdev and FWHM options are mutually exclusive.", having opened the
    input and handed the stdev list to the filter and nothing more: no
    volume was created, no call operator and no voxel loop ran, nothing was
    written. *)
Theorem smooth_stdev_fwhm_mutually_exclusive
  (K : Numerics) (NDEBUG : bool) (inv : Invocation) (sd fw : list default_type) :
  argument1 inv = "smooth" ->
  opt_stdev inv = Some sd ->
  opt_fwhm inv = Some fw ->
  let r := run K NDEBUG inv initial in
  fst r = Throw "the stdev and FWHM options are mutually exclusive."
  /\ calls (snd r) = [Opened (argument0 inv); Configured (SetStdev sd)]
  /\ existsb touches_image_data (calls (snd r)) = false
  /\ written (snd r) = None.
Proof.
  intros Hname Hsd Hfw. unfold run, as_choice. rewrite Hname. cbn.
  unfold run_smooth. rewrite Hsd, Hfw. cbn. auto.
Qed.

Lemma smooth_stdev_fwhm_mutually_exclusive_witness :
  let r := run identity_numerics false
             (invoke "smooth" false (Some [1%float]) (Some [2%float])) initial in
  fst r = Throw "the stdev and FWHM options are mutually exclusive."
  /\ calls (snd r) = [Opened "in.mif"; Configured (SetStdev [1%float])]
  /\ existsb touches_image_data (calls (snd r)) = false
  /\ written (snd r) = None.
Proof.
  exact (smooth_stdev_fwhm_mutually_exclusive identity_numerics false
           (invoke "smooth" false (Some [1%float]) (Some [2%float]))
           [1%float] [2%float] eq_refl eq_refl eq_refl).
Defined.

(** What [run] does for the FFT filter with [-magnitude]: the call, then
    the retyping of the filter, then the output and its loop. *)
Lemma fft_magnitude_retypes_after_call
  (K : Numerics) (NDEBUG : bool) (inv : Invocation) :
  argument1 inv = "fft" ->
  opt_magnitude inv = true ->
  exists (before : list Event) (f : FFT) (h : Header),
    calls (snd (run K NDEBUG inv initial))
    = (before ++ [CallBegin (AnFFT f); CallEnd (AnFFT f);
                  Configured (SetDatatype Float32);
                  Created (argument2 inv) h;
                  VoxelLoop (Some (argument2 inv))])%list
    /\ calls_begun before = 0
    /\ is_complex (datatype_ (hdr (base f))) = true
    /\ h = with_datatype (hdr (base f)) Float32.
Proof.
  intros Hname Hmag.
  assert (Hr : run K NDEBUG inv initial = run_fft K inv initial).
  { unfold run, as_choice. now rewrite Hname. }
  rewrite Hr. clear Hr.
  unfold run_fft, Image_open, Stride_set_from_command_line. rewrite Hmag.
  destruct (opt_axes inv); destruct (opt_strides inv);
    unfold bind; cbn -[magnitude_loop]; run_magnitude_loop K; cbn.
  - eexists [_; _; _; _; _; _; _]; eexists; eexists;
      split; [reflexivity|]; split; [reflexivity|]; split; reflexivity.
  - eexists [_; _; _; _; _; _; _]; eexists; eexists;
      split; [reflexivity|]; split; [reflexivity|]; split; reflexivity.
  - eexists [_; _; _; _; _; _]; eexists; eexists;
      split; [reflexivity|]; split; [reflexivity|]; split; reflexivity.
  - eexists [_; _; _; _; _; _]; eexists; eexists;
      split; [reflexivity|]; split; [reflexivity|]; split; reflexivity.
Qed.

(** C3, amended. In every run the filter is called at most once, and every
    setter [run] applies to it comes before the call operator is entered,
    with one exception: for the FFT filter with [-magnitude], once the call
    operator has returned, [run] sets the filter's datatype to [Float32]
    and creates the output from the retyped header. No other filter and no
    other option lets [run] change a filter from its call on. *)
Theorem filter_configured_before_call
  (K : Numerics) (NDEBUG : bool) (inv : Invocation) :
  let r := run K NDEBUG inv initial in
  calls_begun (calls (snd r)) <= 1
  /\ (argument1 inv <> "fft" \/ opt_magnitude inv = false ->
      fixed_once_configured (calls (snd r)))
  /\ (argument1 inv = "fft" -> opt_magnitude inv = true -> fst r = Ok tt ->
      settings_from_call (calls (snd r)) = [SetDatatype Float32]
      /\ exists (before : list Event) (f : FFT) (h : Header),
           calls (snd r)
           = (before ++ [CallBegin (AnFFT f); CallEnd (AnFFT f);
                         Configured (SetDatatype Float32);
                         Created (argument2 inv) h;
                         VoxelLoop (Some (argument2 inv))])%list
           /\ calls_begun before = 0
           /\ is_complex (datatype_ (hdr (base f))) = true
           /\ h = with_datatype (hdr (base f)) Float32).
Proof.
  intros r. subst r.
  destruct (run_orderly K NDEBUG inv) as ((Hone & Hafter) & _).
  split; [exact Hone|]. split.
  - intros Hnot. unfold fixed_once_configured. rewrite Hafter.
    unfold retyping. destruct Hnot as [Hname|Hmag].
    + apply String.eqb_neq in Hname. now rewrite Hname.
    + rewrite Hmag. now rewrite andb_false_r.
  - intros Hname Hmag _. split.
    + rewrite Hafter. unfold retyping. rewrite Hname, Hmag. reflexivity.
    + now apply fft_magnitude_retypes_after_call.
Qed.

Lemma filter_configured_before_call_witness :
  let r := run identity_numerics false (invoke "fft" true None None) initial in
  settings_from_call (calls (snd r)) = [SetDatatype Float32]
  /\ exists (before : list Event) (f : FFT) (h : Header),
       calls (snd r)
       = (before ++ [CallBegin (AnFFT f); CallEnd (AnFFT f);
                     Configured (SetDatatype Float32);
                     Created "out.mif" h;
                     VoxelLoop (Some "out.mif")])%list
       /\ calls_begun before = 0
       /\ is_complex (datatype_ (hdr (base f))) = true
       /\ h = with_datatype (hdr (base f)) Float32.
Proof.
  exact (proj2 (proj2 (filter_configured_before_call identity_numerics false
                         (invoke "fft" true None None)))
           eq_refl eq_refl eq_refl).
Defined.

(** C3 as stated fails for the FFT filter with [-magnitude]: the filter is
    called with a complex datatype and, the call over, [run] sets its
    datatype to [Float32]: the output datatype of the filter is not fixed
    once the filter has been configured and put to use. *)
Lemma fft_magnitude_changes_filter_after_call :
  (exists (before : list Event) (f : FFT) (h : Header),
     calls (snd (run identity_numerics false (invoke "fft" true None None) initial))
     = (before ++ [CallBegin (AnFFT f); CallEnd (AnFFT f);
                   Configured (SetDatatype Float32);
                   Created "out.mif" h;
                   VoxelLoop (Some "out.mif")])%list
     /\ datatype_ (hdr (base f)) = CFloat32
     /\ datatype_ h = Float32)
  /\ ~ fixed_once_configured
         (calls (snd (run identity_numerics false
                        (invoke "fft" true None None) initial))).
Proof.
  split.
  - eexists [_; _; _; _; _; _]; eexists; eexists.
    split; [reflexivity|]. split; reflexivity.
  - unfold fixed_once_configured. discriminate.
Qed.

(** C4. The FFT filter, whatever the datatype of the input file, when [run]
    returns normally: the call operator is given the input read as complex
    values, and the filter's datatype is complex. Without [-magnitude] the
    output has the filter's header and holds the transformed complex
    voxels. With [-magnitude] the transform goes to a scratch volume with
    the filter's header, and the output is [Float32], has the same axes,
    and holds at every position the modulus of the transformed voxel,
    narrowed to a 32-bit float. *)
Theorem fft_complex_then_magnitude
  (K : Numerics) (NDEBUG : bool) (inv : Invocation) :
  argument1 inv = "fft" ->
  let r := run K NDEBUG inv initial in
  let source := fun p => to_cdouble (st_voxels (input_file inv) p) in
  fst r = Ok tt ->
  exists (f : FFT) (out : Stored),
    written (snd r) = Some (argument2 inv, out)
    /\ In (CallBegin (AnFFT f)) (calls (snd r))
    /\ is_complex (datatype_ (hdr (base f))) = true
    /\ axes_ (st_header out) = axes_ (hdr (base f))
    /\ if opt_magnitude inv then
         In (Scratch (hdr (base f)) "complex FFT result") (calls (snd r))
         /\ datatype_ (st_header out) = Float32
         /\ forall p, Forall2 lt p (dims (st_header out)) ->
              st_voxels out p
              = Real (narrow (std_abs K (fft_kernel K f source p)))
       else
         st_header out = hdr (base f)
         /\ forall p, st_voxels out p = Complex (fft_kernel K f source p).
Proof.
  intros Hname r source.
  assert (Hr : r = run_fft K inv initial).
  { subst r. unfold run, as_choice. now rewrite Hname. }
  rewrite Hr. clear r Hr. intros _.
  unfold run_fft, Image_open, Stride_set_from_command_line.
  destruct (opt_magnitude inv).
  - destruct (opt_axes inv); destruct (opt_strides inv);
      unfold bind; cbn -[magnitude_loop]; run_magnitude_loop K;
      cbn; eexists; eexists;
      (split; [reflexivity|];
       split; [find_event|];
       split; [reflexivity|]; split; [reflexivity|];
       split; [find_event|];
       split; [reflexivity|];
       intros p Hp; cbn; f_equal;
       match goal with Hv : forall q, _ -> _ = _ |- _ => apply (Hv p Hp) end).
  - destruct (opt_axes inv); destruct (opt_strides inv); cbn;
      eexists; eexists;
      (split; [reflexivity|];
       split; [find_event|];
       split; [reflexivity|]; split; [reflexivity|];
       split; [reflexivity|]; intros p; reflexivity).
Qed.

(** On a volume whose voxels are all 1 + i, with kernels that copy their
    input: the modulus is the double nearest to the square root of 2,
    0x1.6a09e667f3bcdp+0, and the voxel written is the 32-bit float nearest
    to it, 0x1.6a09e6p+0. *)
Lemma fft_complex_then_magnitude_witness :
  let inv := invoke_on complex_volume "fft" in
  let r := run identity_numerics false inv initial in
  exists (f : FFT) (out : Stored),
    written (snd r) = Some ("out.mif", out)
    /\ In (CallBegin (AnFFT f)) (calls (snd r))
    /\ is_complex (datatype_ (hdr (base f))) = true
    /\ axes_ (st_header out) = axes_ (hdr (base f))
    /\ In (Scratch (hdr (base f)) "complex FFT result") (calls (snd r))
    /\ datatype_ (st_header out) = Float32
    /\ dims (st_header out) = [2; 2; 2]%nat
    /\ st_voxels out [0; 0; 0]%nat = Real 0x1.6a09e6p+0
    /\ st_voxels out [1; 1; 1]%nat = Real 0x1.6a09e6p+0.
Proof.
  intros inv r.
  destruct (fft_complex_then_magnitude identity_numerics false inv
              eq_refl eq_refl)
    as (f & out & Hw & Hin & Hc & Hax & Hs & Hdt & Hv).
  fold r in Hw, Hin, Hs.
  assert (Hdims : dims (st_header out) = [2; 2; 2]%nat).
  { assert (E : option_map (fun o => dims (st_header (snd o))) (written (snd r))
                = Some [2; 2; 2]%nat) by reflexivity.
    rewrite Hw in E. now injection E. }
  exists f, out.
  split; [exact Hw|]. split; [exact Hin|]. split; [exact Hc|].
  split; [exact Hax|]. split; [exact Hs|]. split; [exact Hdt|].
  split; [exact Hdims|].
  split; (rewrite Hv; [reflexivity|]; rewrite Hdims; repeat constructor).
Defined.

(** C5. The gradient filter given a stdev list: [run] throws if and only if
    the list holds a value below zero or its length is neither 1 nor 3, and
    then before anything touches image data; otherwise the list is what
    [set_stdev] receives and the filter that runs holds it, one value
    broadcast to three. A list of one value that is not below zero gives
    the filter that value three times; zeros are accepted. *)
Theorem gradient_stdev_validation
  (K : Numerics) (NDEBUG : bool) (inv : Invocation) (l : list default_type) :
  argument1 inv = "gradient" ->
  opt_stdev inv = Some l ->
  let r := run K NDEBUG inv initial in
  (is_throw (fst r) = true
   <-> Exists (fun x => (x <? 0)%float = true) l
       \/ (List.length l <> 1 /\ List.length l <> 3))
  /\ (is_throw (fst r) = true ->
      existsb touches_image_data (calls (snd r)) = false)
  /\ (is_throw (fst r) = false ->
      fst r = Ok tt
      /\ stdev_passed (calls (snd r)) = [l]
      /\ exists f, In (CallBegin (AnGradient f)) (calls (snd r))
                   /\ grad_stdev f = broadcast l)
  /\ (forall s, l = [s] -> (s <? 0)%float = false ->
      fst r = Ok tt
      /\ exists f, In (CallBegin (AnGradient f)) (calls (snd r))
                   /\ grad_stdev f = [s; s; s])
  /\ (Forall (fun x => x = 0%float) l ->
      List.length l = 1 \/ List.length l = 3 ->
      fst r = Ok tt).
Proof.
  intros Hname Hopt r.
  pose proof (run_gradient_stdev K NDEBUG inv l Hname Hopt) as Hr.
  fold r in Hr.
  pose proof (negative_exists l) as Hneg.
  pose proof (wrong_length_eqb l) as Hlen.
  destruct (existsb negative l) eqn:E1.
  { rewrite Hr. cbn.
    split; [split; [intros _; left; now apply Hneg|reflexivity]|].
    split; [reflexivity|]. split; [discriminate|]. split.
    - intros s -> Hs. cbn in E1. unfold negative in E1.
      rewrite Hs in E1. discriminate.
    - intros Hz _. exfalso. pose proof (proj1 Hneg eq_refl) as Hex.
      apply Exists_exists in Hex as (x & Hin & Hx).
      rewrite Forall_forall in Hz. rewrite (Hz x Hin) in Hx. discriminate Hx. }
  destruct (negb (List.length l =? 1)%nat && negb (List.length l =? 3)%nat) eqn:E2.
  { rewrite Hr. cbn.
    split; [split; [intros _; right; now apply Hlen|reflexivity]|].
    split; [reflexivity|]. split; [discriminate|]. split.
    - intros s -> _. discriminate E2.
    - intros _ Hl. exfalso. pose proof (proj1 Hlen eq_refl). lia. }
  destruct Hr as (Hok & Hpassed & f & Hin & Hf).
  rewrite Hok. cbn.
  split.
  { split; [discriminate|]. intros [Hx|Hx].
    - apply Hneg in Hx. discriminate Hx.
    - apply Hlen in Hx. discriminate Hx. }
  split; [discriminate|].
  split; [intros _; split; [reflexivity|]; split; [exact Hpassed|]; now exists f|].
  split.
  - intros s -> _. split; [reflexivity|]. now exists f.
  - reflexivity.
Qed.

Lemma gradient_stdev_validation_witness :
  let r := run identity_numerics false
             (invoke "gradient" false (Some [0%float]) None) initial in
  fst r = Ok tt
  /\ exists f, In (CallBegin (AnGradient f)) (calls (snd r))
               /\ grad_stdev f = [0%float; 0%float; 0%float].
Proof.
  exact (proj1 (proj2 (proj2 (proj2
           (gradient_stdev_validation identity_numerics false
              (invoke "gradient" false (Some [0%float]) None) [0%float]
              eq_refl eq_refl))))
           0%float eq_refl eq_refl).
Defined.

(** The comparison [x < 0.0] is the one of the doubles: neither a NaN nor
    the negative zero is below zero, so both pass the validation. *)
Example nan_and_negative_zero_are_not_negative :
  negative nan = false /\ negative (-0)%float = false
  /\ negative 0%float = false /\ negative (-1)%float = true.
Proof. repeat split. Qed.

(** C6. The gradient filter without [-stdev], when [run] returns normally:
    the list [set_stdev] receives holds, for each of the three spatial axes
    d = 0, 1, 2, the voxel size of axis d of the filter that is called,
    [stdev[d] = filter.voxsize (d)]. The list has one value per axis of the
    filter, and 0.0 for every axis after the three spatial ones. *)
Theorem gradient_default_stdev
  (K : Numerics) (NDEBUG : bool) (inv : Invocation) :
  argument1 inv = "gradient" ->
  opt_stdev inv = None ->
  let r := run K NDEBUG inv initial in
  fst r = Ok tt ->
  exists (stdev : list default_type) (f : Gradient),
    stdev_passed (calls (snd r)) = [stdev]
    /\ In (CallBegin (AnGradient f)) (calls (snd r))
    /\ (forall d, d < 3 ->
        exists x, voxsize (hdr (base f)) d = Ok x /\ vec_get stdev d = Ok x)
    /\ List.length stdev = ndim (hdr (base f))
    /\ (forall d, 3 <= d < ndim (hdr (base f)) ->
        vec_get stdev d = Ok 0%float).
Proof.
  intros Hname Hopt r.
  assert (Hr : r = run_gradient K inv initial).
  { subst r. unfold run, as_choice. now rewrite Hname. }
  rewrite Hr. clear r Hr.
  unfold run_gradient. rewrite Hopt.
  unfold Image_open. cbn -[default_stdev Gradient_new].
  generalize (Gradient_new (st_header (input_file inv)) (opt_magnitude inv)).
  intros filter.
  destruct (axes_ (hdr (base filter))) as [|a0 [|a1 [|a2 rest]]] eqn:E;
    try (unfold default_stdev, ndim, voxsize; rewrite E; discriminate).
  rewrite (bind_pure _ _ _ _ (default_stdev_spec filter a0 a1 a2 rest _ E)).
  set (stdev := vox a0 :: vox a1 :: vox a2 :: repeat 0%float (List.length rest)).
  assert (Hget : forall d, d < 3 ->
            exists x, voxsize (hdr (base filter)) d = Ok x
                      /\ vec_get stdev d = Ok x).
  { intros d Hd. unfold voxsize. rewrite E.
    destruct d as [|[|[|d]]]; try lia; eexists; split; reflexivity. }
  assert (Hzero : forall d, 3 <= d < ndim (hdr (base filter)) ->
            vec_get stdev d = Ok 0%float).
  { intros d Hd. unfold ndim in Hd. rewrite E in Hd. simpl in Hd.
    destruct d as [|[|[|d]]]; try lia.
    unfold vec_get. simpl. rewrite repeat_nth_error by lia. reflexivity. }
  assert (Hlen : List.length stdev = ndim (hdr (base filter))).
  { unfold ndim. rewrite E. simpl. now rewrite repeat_length. }
  clearbody stdev.
  unfold Stride_set_from_command_line; destruct (opt_strides inv) as [l|];
    cbn; intros _; exists stdev; eexists;
    (split; [reflexivity|]; split; [find_event|]); cbn.
  - assert (Hvox : map vox (restride (axes_ (hdr (grad_base filter))) l)
                   = map vox (axes_ (hdr (grad_base filter))))
      by apply restride_vox.
    split; [|split].
    + intros d Hd. destruct (Hget d Hd) as (x & Hx & Hs).
      exists x. split; [|exact Hs].
      rewrite <- Hx. now apply voxsize_vox.
    + transitivity (ndim (hdr (base filter))); [exact Hlen|].
      symmetry.
      exact (ndim_vox (hdr (grad_base filter))
               {| axes_ := restride (axes_ (hdr (grad_base filter))) l;
                  datatype_ := datatype_ (hdr (grad_base filter)) |} Hvox).
    + intros d Hd. apply Hzero.
      pose proof (ndim_vox (hdr (grad_base filter))
                    {| axes_ := restride (axes_ (hdr (grad_base filter))) l;
                       datatype_ := datatype_ (hdr (grad_base filter)) |} Hvox)
        as Hn.
      change (base filter) with (grad_base filter).
      unfold ndim in *. cbn in Hn. lia.
  - split; [exact Hget|]. split; [exact Hlen|exact Hzero].
Qed.

Lemma gradient_default_stdev_witness :
  let r := run identity_numerics false (invoke "gradient" true None None) initial in
  exists (stdev : list default_type) (f : Gradient),
    stdev_passed (calls (snd r)) = [stdev]
    /\ In (CallBegin (AnGradient f)) (calls (snd r))
    /\ (forall d, d < 3 ->
        exists x, voxsize (hdr (base f)) d = Ok x /\ vec_get stdev d = Ok x)
    /\ List.length stdev = ndim (hdr (base f))
    /\ (forall d, 3 <= d < ndim (hdr (base f)) ->
        vec_get stdev d = Ok 0%float).
Proof.
  exact (gradient_default_stdev identity_numerics false
           (invoke "gradient" true None None) eq_refl eq_refl eq_refl).
Defined.

(** On a volume with voxels of 2 mm the default is 2 for each of the three
    spatial axes; the fourth axis, which is not smoothed, gets 0. *)
Example gradient_default_stdev_of_2mm_voxels :
  stdev_passed (calls (snd (run identity_numerics false
                              (invoke "gradient" true None None) initial)))
  = [[2%float; 2%float; 2%float; 0%float]].
Proof. reflexivity. Qed.

(** C7. The smooth filter given [-fwhm] and not [-stdev], when [run]
    returns normally: [set_stdev] receives exactly the fwhm list with every
    value divided by 2.3548, in the arithmetic of doubles, and that is the
    stdev of the filter that runs. When [-stdev] is given too, [run] throws
    and no list made from the fwhm values reaches the filter. *)
Theorem smooth_fwhm_conversion
  (K : Numerics) (NDEBUG : bool) (inv : Invocation) (fw : list default_type) :
  argument1 inv = "smooth" ->
  opt_fwhm inv = Some fw ->
  let r := run K NDEBUG inv initial in
  match opt_stdev inv with
  | Some sd =>
      fst r = Throw "the stdev and FWHM options are mutually exclusive."
      /\ stdev_passed (calls (snd r)) = [sd]
  | None =>
      fst r = Ok tt ->
      stdev_passed (calls (snd r)) = [map (fun x => (x / 2.3548)%float) fw]
      /\ exists f, In (CallBegin (AnSmooth f)) (calls (snd r))
                   /\ sm_stdev f = map (fun x => (x / 2.3548)%float) fw
  end.
Proof.
  intros Hname Hfw r.
  assert (Hr : r = run_smooth K inv initial).
  { subst r. unfold run, as_choice. now rewrite Hname. }
  rewrite Hr. clear r Hr.
  unfold run_smooth. rewrite Hfw.
  destruct (opt_stdev inv) as [sd|].
  - cbn. auto.
  - unfold Image_open. unfold bind. cbn -[fwhm_to_stdev].
    rewrite fwhm_to_stdev_spec.
    unfold Stride_set_from_command_line;
      destruct (opt_extent inv); destruct (opt_strides inv); cbn; intros _;
      (split; [reflexivity|];
       eexists; split; [find_event|reflexivity]).
Qed.

(** A fwhm of 1 mm and one of 10 mm: the stdevs are the doubles
    0.42466451503312386 and 4.2466451503312381. *)
Lemma smooth_fwhm_conversion_witness :
  let r := run identity_numerics false
             (invoke "smooth" false None (Some [1%float; 10%float])) initial in
  stdev_passed (calls (snd r))
  = [[0x1.b2db412f5b1a4p-2%float; 0x1.0fc908bd98f06p+2%float]]
  /\ exists f, In (CallBegin (AnSmooth f)) (calls (snd r))
               /\ sm_stdev f
                  = [0x1.b2db412f5b1a4p-2%float; 0x1.0fc908bd98f06p+2%float].
Proof.
  exact (smooth_fwhm_conversion identity_numerics false
           (invoke "smooth" false None (Some [1%float; 10%float]))
           [1%float; 10%float] eq_refl eq_refl eq_refl).
Defined.

(** C8, amended. An index outside 0..3 reaches the default branch of the
    switch, which aborts on [assert (0)] when assertions are compiled in
    and, under [NDEBUG], falls through to [break] so that [run] returns
    having done nothing. An argument validated against [filters] gives an
    index below 4 and the switch then takes the case of that filter; a name
    that is not in [filters] is refused before the switch; so [run] never
    ends on the failed assertion. *)
Theorem default_branch_of_switch
  (K : Numerics) (NDEBUG : bool) (inv : Invocation) (filter_index : nat)
  (w : World) :
  (4 <= filter_index ->
   run_switch K NDEBUG inv filter_index w
   = (if NDEBUG then Ok tt else AssertFail, w))
  /\ (index_of filters (argument1 inv) = Some filter_index ->
      filter_index < 4
      /\ nth_error filters filter_index = Some (argument1 inv)
      /\ run K NDEBUG inv w = run_switch K NDEBUG inv filter_index w
      /\ run_switch K NDEBUG inv filter_index
         = nth filter_index
             [run_fft K; run_gradient K; run_median K; run_smooth K]
             (fun _ => ret tt) inv)
  /\ (index_of filters (argument1 inv) = None ->
      run K NDEBUG inv w = (Throw "unknown filter name", w))
  /\ fst (run K NDEBUG inv initial) <> AssertFail.
Proof.
  split; [|split; [|split]].
  - intros Hi. destruct filter_index as [|[|[|[|i]]]]; try lia.
    unfold run_switch, assert_. now destruct NDEBUG.
  - intros E. pose proof (index_of_lt _ _ _ E) as Hlt. simpl in Hlt.
    split; [exact Hlt|]. split; [now apply index_of_nth|].
    split.
    + unfold run, as_choice. now rewrite E.
    + destruct filter_index as [|[|[|[|i]]]]; try lia; reflexivity.
  - intros E. unfold run, as_choice. now rewrite E.
  - exact (proj2 (run_orderly K NDEBUG inv)).
Qed.

Lemma default_branch_of_switch_witness :
  index_of filters "median" = Some 2
  /\ run identity_numerics false (invoke "median" false None None) initial
     = run_median identity_numerics (invoke "median" false None None) initial.
Proof.
  split; [reflexivity|].
  destruct (proj1 (proj2 (default_branch_of_switch identity_numerics false
                            (invoke "median" false None None) 2 initial))
              eq_refl) as (_ & _ & Hrun & _).
  exact Hrun.
Defined.

(** C8 as stated fails under [NDEBUG]: the default branch does not abort,
    [run] returns normally and nothing has happened. *)
Lemma default_branch_silent_without_assertions :
  run_switch identity_numerics true (invoke "smooth" false None None) 4 initial
  = (Ok tt, initial).
Proof. reflexivity. Qed.

(** ** Every run of [run], whatever the filter *)

Import RunLog.

Ltac settled_done :=
  unfold settled; cbn;
  first [ discriminate
        | intros _; split; [reflexivity|]; split; [reflexivity|];
          eexists; split; reflexivity ].

Lemma run_fft_settled (K : Numerics) (inv : Invocation) :
  settled inv (run_fft K inv initial).
Proof.
  unfold run_fft, Image_open, Stride_set_from_command_line.
  destruct (opt_magnitude inv).
  - destruct (opt_axes inv); destruct (opt_strides inv);
      unfold bind; cbn -[magnitude_loop]; run_magnitude_loop K; settled_done.
  - destruct (opt_axes inv); destruct (opt_strides inv); settled_done.
Qed.

Lemma run_gradient_settled (K : Numerics) (inv : Invocation) :
  settled inv (run_gradient K inv initial).
Proof.
  unfold run_gradient, Image_open, Stride_set_from_command_line.
  destruct (opt_stdev inv) as [l|].
  - cbn -[check_not_negative].
    rewrite (bind_pure _ _ _ _ (supplied_stdev_spec l _)).
    destruct (existsb negative l); [settled_done|].
    destruct (negb (List.length l =? 1)%nat && negb (List.length l =? 3)%nat);
      [settled_done|].
    destruct (opt_strides inv); settled_done.
  - cbn -[default_stdev Gradient_new].
    match goal with
    | |- context [bind (default_stdev ?f) ?k ?w] =>
        destruct (default_stdev_pure f w) as [Ho|(stdev & Ho)];
        rewrite (bind_pure _ k _ _ Ho)
    end.
    + settled_done.
    + destruct (opt_strides inv); settled_done.
Qed.

Lemma run_median_settled (K : Numerics) (inv : Invocation) :
  settled inv (run_median K inv initial).
Proof.
  unfold run_median, Image_open, Stride_set_from_command_line.
  destruct (opt_extent inv); destruct (opt_strides inv); settled_done.
Qed.

Lemma run_smooth_settled (K : Numerics) (inv : Invocation) :
  settled inv (run_smooth K inv initial).
Proof.
  unfold run_smooth, Image_open, Stride_set_from_command_line.
  destruct (opt_stdev inv) as [sd|]; destruct (opt_fwhm inv) as [fw|];
    try (destruct (opt_extent inv); destruct (opt_strides inv); settled_done).
  unfold bind; cbn -[fwhm_to_stdev]; rewrite fwhm_to_stdev_spec.
  destruct (opt_extent inv); destruct (opt_strides inv); settled_done.
Qed.

Lemma run_settled (K : Numerics) (NDEBUG : bool) (inv : Invocation) :
  settled inv (run K NDEBUG inv initial).
Proof.
  unfold run, as_choice.
  destruct (index_of filters (argument1 inv)) as [i|] eqn:E.
  - apply index_of_lt in E. simpl in E.
    destruct i as [|[|[|[|i]]]]; try lia.
    + apply run_fft_settled.
    + apply run_gradient_settled.
    + apply run_median_settled.
    + apply run_smooth_settled.
  - settled_done.
Qed.

(** X2. A run that returns normally has opened the input path and no other,
    entered a call operator exactly once, and created exactly one volume:
    at the output path, stored with the header it was created with. *)
Theorem successful_run_writes_one_volume
  (K : Numerics) (NDEBUG : bool) (inv : Invocation) :
  let r := run K NDEBUG inv initial in
  fst r = Ok tt ->
  opened (calls (snd r)) = [argument0 inv]
  /\ calls_begun (calls (snd r)) = 1
  /\ exists out, written (snd r) = Some (argument2 inv, out)
                 /\ created (calls (snd r)) = [(argument2 inv, st_header out)].
Proof.
  intros r Hok. exact (run_settled K NDEBUG inv Hok).
Qed.

Lemma successful_run_writes_one_volume_witness :
  let r := run identity_numerics false (invoke "median" false None None) initial in
  opened (calls (snd r)) = ["in.mif"]
  /\ calls_begun (calls (snd r)) = 1
  /\ exists out, written (snd r) = Some ("out.mif", out)
                 /\ created (calls (snd r)) = [("out.mif", st_header out)].
Proof.
  exact (successful_run_writes_one_volume identity_numerics false
           (invoke "median" false None None) eq_refl).
Defined.

(** X5. [run] reads only the options of the chosen filter: taking all the
    others off the command line changes neither the outcome nor the world.
    (So [-fwhm] next to [-stdev] is an error for smooth only, and the other
    filters do not see it.) *)
Theorem run_reads_own_options
  (K : Numerics) (NDEBUG : bool) (inv : Invocation) (filter_index : nat)
  (w : World) :
  index_of filters (argument1 inv) = Some filter_index ->
  run K NDEBUG inv w = run K NDEBUG (own_options filter_index inv) w.
Proof.
  intros E. unfold run, as_choice.
  change (argument1 (own_options filter_index inv)) with (argument1 inv).
  rewrite E. pose proof (index_of_lt _ _ _ E) as Hlt. simpl in Hlt.
  destruct filter_index as [|[|[|[|i]]]]; try lia; reflexivity.
Qed.

Lemma run_reads_own_options_witness :
  fst (run identity_numerics false (everything "median") initial) = Ok tt
  /\ opt_stdev (own_options 2 (everything "median")) = None
  /\ opt_fwhm (own_options 2 (everything "median")) = None
  /\ run identity_numerics false (everything "median") initial
     = run identity_numerics false (own_options 2 (everything "median")) initial.
Proof.
  split; [reflexivity|]. split; [reflexivity|]. split; [reflexivity|].
  exact (run_reads_own_options identity_numerics false (everything "median") 2
           initial eq_refl).
Defined.



(** X8. The median filter, when [run] returns normally: [set_extent] was
    called with the list of [-extent] exactly as given, and not at all
    without the option; the output has the header of the filter that is
    called and holds what its call operator makes of the input read as real
    values. *)
Theorem median_runs_with_given_extent
  (K : Numerics) (NDEBUG : bool) (inv : Invocation) :
  argument1 inv = "median" ->
  let r := run K NDEBUG inv initial in
  let source := fun p => to_float (st_voxels (input_file inv) p) in
  fst r = Ok tt ->
  extent_passed (calls (snd r)) = given (opt_extent inv)
  /\ exists (f : Median) (out : Stored),
       In (CallBegin (AnMedian f)) (calls (snd r))
       /\ med_extent f = match opt_extent inv with
                         | Some e => e
                         | None => med_extent (Median_new (st_header (input_file inv)))
                         end
       /\ message (base f)
          = "applying median filter to image " ++ argument0 inv ++ "..."
       /\ written (snd r) = Some (argument2 inv, out)
       /\ st_header out = hdr (base f)
       /\ forall p, st_voxels out p = Real (median_kernel K f source p).
Proof.
  intros Hname r source.
  assert (Hr : r = run_median K inv initial).
  { subst r. unfold run, as_choice. now rewrite Hname. }
  rewrite Hr. clear r Hr. intros _.
  unfold run_median, Image_open, Stride_set_from_command_line. rewrite Hname.
  destruct (opt_extent inv); destruct (opt_strides inv); cbn;
    (split; [reflexivity|];
     eexists; eexists;
     split; [find_event|];
     split; [reflexivity|]; split; [reflexivity|];
     split; [reflexivity|]; split; [reflexivity|]; intros p; reflexivity).
Qed.

Lemma median_runs_with_given_extent_witness :
  let r := run identity_numerics false (everything "median") initial in
  extent_passed (calls (snd r)) = [[5]%Z].
Proof.
  exact (proj1 (median_runs_with_given_extent identity_numerics false
                  (everything "median") eq_refl eq_refl)).
Defined.



(** X7. The gradient filter, when [run] returns normally: the filter that is
    called holds the magnitude and scanner flags of the command line and
    the message "applying gradient filter to image <input>..."; the output
    has the header of that filter and holds, at every position, what its
    call operator makes of the input read as real values. *)
Theorem gradient_output
  (K : Numerics) (NDEBUG : bool) (inv : Invocation) :
  argument1 inv = "gradient" ->
  let r := run K NDEBUG inv initial in
  let source := fun p => to_float (st_voxels (input_file inv) p) in
  fst r = Ok tt ->
  exists (f : Gradient) (out : Stored),
    In (CallBegin (AnGradient f)) (calls (snd r))
    /\ grad_magnitude f = opt_magnitude inv
    /\ grad_wrt_scanner f = opt_scanner inv
    /\ message (base f)
       = "applying gradient filter to image " ++ argument0 inv ++ "..."
    /\ written (snd r) = Some (argument2 inv, out)
    /\ st_header out = hdr (base f)
    /\ forall p, st_voxels out p = Real (gradient_kernel K f source p).
Proof.
  intros Hname r source.
  assert (Hr : r = run_gradient K inv initial).
  { subst r. unfold run, as_choice. now rewrite Hname. }
  rewrite Hr. clear r Hr.
  unfold run_gradient, Image_open, Stride_set_from_command_line. rewrite Hname.
  destruct (opt_stdev inv) as [l|].
  - cbn -[check_not_negative].
    rewrite (bind_pure _ _ _ _ (supplied_stdev_spec l _)).
    destruct (existsb negative l); [discriminate|].
    destruct (negb (List.length l =? 1)%nat && negb (List.length l =? 3)%nat);
      [discriminate|].
    destruct (opt_strides inv); destruct (opt_scanner inv); cbn; intros _;
      eexists; eexists;
      (split; [find_event|];
       split; [reflexivity|]; split; [reflexivity|]; split; [reflexivity|];
       split; [reflexivity|]; split; [reflexivity|]; intros p; reflexivity).
  - cbn -[default_stdev Gradient_new].
    match goal with
    | |- context [bind (default_stdev ?f) ?k ?w] =>
        destruct (default_stdev_pure f w) as [Ho|(stdev & Ho)];
        rewrite (bind_pure _ k _ _ Ho)
    end.
    + discriminate.
    + destruct (opt_strides inv); destruct (opt_scanner inv); cbn; intros _;
        eexists; eexists;
        (split; [find_event|];
         split; [reflexivity|]; split; [reflexivity|]; split; [reflexivity|];
         split; [reflexivity|]; split; [reflexivity|]; intros p; reflexivity).
Qed.

Lemma gradient_output_witness :
  let inv := invoke "gradient" true None None in
  let r := run identity_numerics false inv initial in
  let source := fun p => to_float (st_voxels (input_file inv) p) in
  exists (f : Gradient) (out : Stored),
    In (CallBegin (AnGradient f)) (calls (snd r))
    /\ grad_magnitude f = opt_magnitude inv
    /\ grad_wrt_scanner f = opt_scanner inv
    /\ message (base f)
       = "applying gradient filter to image " ++ argument0 inv ++ "..."
    /\ written (snd r) = Some (argument2 inv, out)
    /\ st_header out = hdr (base f)
    /\ forall p, st_voxels out p = Real (gradient_kernel identity_numerics f source p).
Proof.
  exact (gradient_output identity_numerics false
           (invoke "gradient" true None None) eq_refl eq_refl).
Defined.

(** ** [reset] on a valid parent *)

Local Open Scope list_scope.

Section ResetFacts.

Context {value_type : Type} `{ValueType value_type}.

Lemma after_reset_nothing (n : nat) (a : Adapter.AllowEmpty value_type) :
  Adapter.after_reset n 0 a = a.
Proof.
  unfold Adapter.after_reset. cbn [repeat seq map app]. rewrite Nat.add_0_r.
  rewrite firstn_skipn, app_nil_r.
  destruct a as [[pv ps pi px] sz d t]; reflexivity.
Qed.

Lemma vec_set_in_range {A} (l : list A) (n : nat) (x : A) :
  n < List.length l -> vec_set l n x = Ok (firstn n l ++ x :: skipn (S n) l).
Proof.
  revert n. induction l as [|y l IH]; intros n Hn; [simpl in Hn; lia|].
  destruct n as [|n]; [reflexivity|].
  cbn [vec_set]. rewrite IH by (simpl in Hn; lia). reflexivity.
Qed.

Lemma vec_set_out_of_range {A} (l : list A) (n : nat) (x : A) :
  List.length l <= n -> vec_set l n x = Undefined.
Proof.
  revert n. induction l as [|y l IH]; intros n Hn; [reflexivity|].
  destruct n as [|n]; [simpl in Hn; lia|].
  cbn [vec_set]. rewrite IH by (simpl in Hn; lia). reflexivity.
Qed.

Lemma set_pos_in_range (a : Adapter.AllowEmpty value_type) (n : nat) :
  Adapter.valid a = true ->
  n < List.length (Adapter.img_index (Adapter.parent_ a)) ->
  Adapter.set_pos a n 0%Z = (Ok tt, Adapter.after_reset n 1 a).
Proof.
  intros Hv Hn. unfold Adapter.set_pos, Adapter.valid in *. rewrite Hv.
  rewrite vec_set_in_range by exact Hn.
  unfold Adapter.after_reset, Adapter.with_parent.
  cbn [repeat seq map app]. rewrite Nat.add_1_r. reflexivity.
Qed.

Lemma set_pos_out_of_range (a : Adapter.AllowEmpty value_type) (n : nat) :
  List.length (Adapter.img_index (Adapter.parent_ a)) <= n ->
  fst (Adapter.set_pos a n 0%Z) = Undefined.
Proof.
  intros Hn. unfold Adapter.set_pos.
  destruct (Adapter.img_valid (Adapter.parent_ a)); [|reflexivity].
  rewrite vec_set_out_of_range by exact Hn. reflexivity.
Qed.

Lemma after_reset_step (n count : nat) (a : Adapter.AllowEmpty value_type) :
  n < List.length (Adapter.img_index (Adapter.parent_ a)) ->
  Adapter.after_reset (S n) count (Adapter.after_reset n 1 a) = Adapter.after_reset n (S count) a.
Proof.
  intros Hn. unfold Adapter.after_reset, Adapter.set_index.
  cbn [Adapter.parent_ Adapter.size_ Adapter.value_if_empty Adapter.touched
       Adapter.img_index Adapter.img_valid Adapter.img_size Adapter.img_voxels
       repeat app seq map].
  set (idx := Adapter.img_index (Adapter.parent_ a)) in *.
  assert (Hlen : List.length (firstn n idx) = n) by (apply firstn_length_le; lia).
  assert (E1 : firstn (S n) (firstn n idx ++ 0%Z :: skipn (n + 1) idx)
               = firstn n idx ++ [0%Z]).
  { rewrite firstn_app, Hlen.
    rewrite (firstn_all2 (n:=S n) (firstn n idx)) by lia.
    replace (S n - n) with 1 by lia. reflexivity. }
  assert (E2 : skipn (S n + count) (firstn n idx ++ 0%Z :: skipn (n + 1) idx)
               = skipn (n + S count) idx).
  { rewrite skipn_app, Hlen.
    rewrite (skipn_all2 (n:=S n + count) (firstn n idx)) by lia.
    replace (S n + count - n) with (S count) by lia.
    cbn [skipn app]. rewrite skipn_skipn. f_equal. lia. }
  rewrite E1, E2. rewrite <- !app_assoc. reflexivity.
Qed.

Lemma after_reset_length (n count : nat) (a : Adapter.AllowEmpty value_type) :
  n + count <= List.length (Adapter.img_index (Adapter.parent_ a)) ->
  List.length (Adapter.img_index (Adapter.parent_ (Adapter.after_reset n count a)))
  = List.length (Adapter.img_index (Adapter.parent_ a)).
Proof.
  intros Hn. unfold Adapter.after_reset, Adapter.set_index.
  cbn [Adapter.parent_ Adapter.img_index].
  rewrite !length_app, repeat_length, length_skipn.
  rewrite firstn_length_le by lia. lia.
Qed.

Lemma reset_loop_in_range (count n : nat) (a : Adapter.AllowEmpty value_type) :
  Adapter.valid a = true ->
  n + count <= List.length (Adapter.img_index (Adapter.parent_ a)) ->
  Adapter.reset_loop count n a = (Ok tt, Adapter.after_reset n count a).
Proof.
  revert n a. induction count as [|count IH]; intros n a Hv Hn.
  - cbn. now rewrite after_reset_nothing.
  - cbn [Adapter.reset_loop]. rewrite set_pos_in_range by (auto; lia).
    rewrite IH.
    + now rewrite after_reset_step by lia.
    + exact Hv.
    + rewrite after_reset_length by lia. lia.
Qed.

Lemma reset_loop_out_of_range (count n : nat) (a : Adapter.AllowEmpty value_type) :
  Adapter.valid a = true ->
  n <= List.length (Adapter.img_index (Adapter.parent_ a)) ->
  List.length (Adapter.img_index (Adapter.parent_ a)) < n + count ->
  fst (Adapter.reset_loop count n a) = Undefined.
Proof.
  revert n a. induction count as [|count IH]; intros n a Hv Hle Hlt; [lia|].
  cbn [Adapter.reset_loop].
  destruct (Nat.eq_dec n (List.length (Adapter.img_index (Adapter.parent_ a)))) as [E|E].
  - pose proof (set_pos_out_of_range a n ltac:(lia)) as Hout.
    destruct (Adapter.set_pos a n 0%Z) as [o a']. cbn in Hout. subst o. reflexivity.
  - rewrite set_pos_in_range by (auto; lia).
    apply IH.
    + exact Hv.
    + rewrite after_reset_length by lia. lia.
    + rewrite after_reset_length by lia. lia.
Qed.

(** X10. [reset()] on a valid parent. When the cursor of the parent has at
    least [ndim()] axes, [reset] returns normally after calling [set_pos
    (n, 0)] once for each axis [n] below [ndim()], in order: those indices
    are 0, the further ones are as before, and voxels, sizes and the default
    value are untouched. When the cursor is shorter, [reset] runs past its
    end. *)
Theorem reset_on_valid_parent (a : Adapter.AllowEmpty value_type) :
  Adapter.valid a = true ->
  let idx := Adapter.img_index (Adapter.parent_ a) in
  if (Adapter.ndim a <=? List.length idx)%nat then
    exists a',
      Adapter.reset a = (Ok tt, a')
      /\ Adapter.img_index (Adapter.parent_ a')
         = repeat 0%Z (Adapter.ndim a) ++ skipn (Adapter.ndim a) idx
      /\ Adapter.img_voxels (Adapter.parent_ a') = Adapter.img_voxels (Adapter.parent_ a)
      /\ Adapter.img_size (Adapter.parent_ a') = Adapter.img_size (Adapter.parent_ a)
      /\ Adapter.valid a' = true
      /\ Adapter.value_if_empty a' = Adapter.value_if_empty a
      /\ Adapter.touched a'
         = Adapter.touched a
           ++ map (fun k => Adapter.SetPos k 0%Z) (seq 0 (Adapter.ndim a))
  else fst (Adapter.reset a) = Undefined.
Proof.
  intros Hv idx. unfold Adapter.reset. rewrite Hv.
  destruct (Adapter.ndim a <=? List.length idx)%nat eqn:E.
  - apply Nat.leb_le in E.
    exists (Adapter.after_reset 0 (Adapter.ndim a) a).
    split; [apply reset_loop_in_range; [exact Hv|exact E]|].
    unfold Adapter.after_reset, Adapter.valid in *. cbn. fold idx. auto 10.
  - apply Nat.leb_gt in E.
    apply reset_loop_out_of_range; [exact Hv|lia|exact E].
Qed.

End ResetFacts.

Lemma reset_on_valid_parent_witness :
  exists a',
    Adapter.reset (Adapter.AllowEmpty_new Adapter.moved_image None) = (Ok tt, a')
    /\ Adapter.img_index (Adapter.parent_ a') = [0; 0]%Z.
Proof.
  destruct (reset_on_valid_parent (Adapter.AllowEmpty_new Adapter.moved_image None) eq_refl)
    as (a' & Hr & Hi & _).
  exists a'. split; [exact Hr|exact Hi].
Defined.

(** ** The command line of [foreach] *)

Module ForeachFacts.

Import Foreach.

Local Open Scope string_scope.

Lemma substring_all (n : nat) (s : string) :
  String.length s <= n -> substring 0 n s = s.
Proof.
  revert n. induction s as [|c s IH]; intros n Hn.
  - now destruct n.
  - destruct n as [|n]; simpl in *; [lia|]. rewrite IH by lia. reflexivity.
Qed.

Lemma is_dashed (word : string) :
  String.eqb ("x" ++ substring 0 1 word) "x-" = dashed word.
Proof.
  destruct word as [|c r]; [reflexivity|].
  cbn. unfold dashed, dash.
  destruct (Ascii.eqb c _) eqn:E.
  - now destruct r.
  - reflexivity.
Qed.

Lemma dash_v_is_dashed (word : string) :
  String.eqb word "-v" = true -> dashed word = true.
Proof. intros E. apply String.eqb_eq in E. now subst. Qed.

(** One turn of the loop, field by field. *)
Lemma read_word_fields (word : string) (v : Vars) :
  args (read_word word v)
  = (args v ++ if dashed word then [] else [word])%list
  /\ verbose (read_word word v)
     = (if String.eqb word "-v" then "true" else verbose v)
  /\ njobs (read_word word v)
     = (if sets_jobs word
        then "-P " ++ substring 1 (String.length word) word ++ " "
        else njobs v).
Proof.
  unfold read_word, sets_jobs.
  change (String.eqb ("x" ++ word) "x-v") with (String.eqb word "-v").
  rewrite is_dashed.
  destruct (String.eqb word "-v") eqn:Ev.
  - rewrite (dash_v_is_dashed _ Ev). cbn. now rewrite app_nil_r.
  - destruct (dashed word); cbn; [now rewrite app_nil_r|auto].
Qed.

Lemma targets_loop_spec (params : list string) (v : Vars) :
  targets_loop params v
  = (read_all (before_colon params) v,
     if existsb (String.eqb ":") params then (":" :: after_colon params)%list else []).
Proof.
  revert v. induction params as [|word rest IH]; intros v; [reflexivity|].
  cbn [targets_loop before_colon after_colon existsb].
  change (String.eqb ("x" ++ word) "x:") with (String.eqb word ":").
  rewrite (String.eqb_sym ":" word).
  destruct (String.eqb word ":") eqn:E.
  - apply String.eqb_eq in E. subst. reflexivity.
  - rewrite IH. reflexivity.
Qed.

Lemma read_all_fields (l : list string) (v : Vars) :
  args (read_all l v) = (args v ++ filter (fun w => negb (dashed w)) l)%list
  /\ verbose (read_all l v)
     = (if existsb (fun w => String.eqb w "-v") l then "true" else verbose v)
  /\ njobs (read_all l v) = jobs_of l (njobs v).
Proof.
  revert v. induction l as [|word rest IH]; intros v.
  - cbn. now rewrite app_nil_r.
  - cbn [read_all fold_left]. fold (read_all rest (read_word word v)).
    destruct (IH (read_word word v)) as (Ha & Hv & Hj).
    destruct (read_word_fields word v) as (Ha1 & Hv1 & Hj1).
    rewrite Ha, Hv, Hj, Ha1, Hv1, Hj1. clear.
    split; [|split].
    + cbn [filter]. destruct (dashed word); cbn; rewrite <- app_assoc; reflexivity.
    + cbn [existsb]. destruct (String.eqb word "-v"); cbn; [|reflexivity].
      now destruct (existsb _ rest).
    + cbn [jobs_of]. unfold sets_jobs.
      destruct (String.eqb word "-v") eqn:Ev.
      * rewrite (dash_v_is_dashed _ Ev). reflexivity.
      * rewrite andb_true_r. reflexivity.
Qed.

Lemma append_assoc (a b c : string) : (a ++ b) ++ c = a ++ (b ++ c).
Proof. induction a as [|x a IH]; cbn; [reflexivity|]. now rewrite IH. Qed.

Lemma append_nil_r (a : string) : a ++ EmptyString = a.
Proof. induction a as [|x a IH]; cbn; [reflexivity|]. now rewrite IH. Qed.

Lemma command_loop_spec (params : list string) (cmd : string) :
  command_loop params cmd = cmd ++ join (map quoted params).
Proof.
  revert cmd. induction params as [|word rest IH]; intros cmd.
  - unfold join. cbn [command_loop map fold_right]. now rewrite append_nil_r.
  - cbn [command_loop map]. rewrite IH.
    unfold join. cbn [fold_right]. unfold quoted at 2.
    now rewrite !append_assoc.
Qed.

Lemma is_empty (cmd : string) :
  String.eqb ("x" ++ cmd) "x" = true <-> cmd = EmptyString.
Proof. destruct cmd; cbn; split; congruence. Qed.

Lemma append_empty (a b : string) :
  a ++ b = EmptyString <-> a = EmptyString /\ b = EmptyString.
Proof. destruct a; cbn; split; [auto|tauto|discriminate|intros (H & _); discriminate]. Qed.

Lemma join_quoted_empty (l : list string) :
  join (map quoted l) = EmptyString <-> l = [].
Proof. destruct l; cbn; split; try congruence; discriminate. Qed.

(** Lines 3 to 104 in one formula. *)
Lemma foreach_spec (help_page env_cmd : string) (params : list string) :
  foreach help_page env_cmd params
  = match params with
    | [] => Exit1 help_page
    | _ :: _ =>
        let cmd := env_cmd ++ join (map quoted (after_colon params)) in
        if String.eqb ("x" ++ cmd) "x"
        then Exit1 "error: no command specified!"
        else Launch (read_all (before_colon params) unset) cmd
    end.
Proof.
  unfold foreach. destruct params as [|word rest]; [reflexivity|].
  cbn [List.length Nat.eqb]. rewrite targets_loop_spec.
  assert (Hshift : shift (if existsb (String.eqb ":") (word :: rest)
                          then (":" :: after_colon (word :: rest))%list else [])
                   = after_colon (word :: rest)).
  { destruct (existsb (String.eqb ":") (word :: rest)) eqn:E; [reflexivity|].
    cbn [shift]. induction (word :: rest) as [|w l IH]; [reflexivity|].
    cbn [existsb] in E. apply orb_false_iff in E as (Ew & El).
    cbn [after_colon]. rewrite (String.eqb_sym w ":"), Ew. now apply IH. }
  rewrite Hshift, command_loop_spec. reflexivity.
Qed.

Lemma colon_split (pre post : list string) :
  ~ In ":" pre ->
  before_colon (pre ++ ":" :: post)%list = pre
  /\ after_colon (pre ++ ":" :: post)%list = post.
Proof.
  induction pre as [|w pre IH]; intros Hn; [split; reflexivity|].
  cbn [app before_colon after_colon].
  destruct (String.eqb w ":") eqn:E.
  - apply String.eqb_eq in E. subst. exfalso. apply Hn. now left.
  - destruct IH as (Hb & Ha); [intros Hin; apply Hn; now right|].
    now rewrite Hb, Ha.
Qed.

Lemma no_colon (l : list string) :
  ~ In ":" l -> before_colon l = l /\ after_colon l = [].
Proof.
  induction l as [|w l IH]; intros Hn; [split; reflexivity|].
  cbn [before_colon after_colon].
  destruct (String.eqb w ":") eqn:E.
  - apply String.eqb_eq in E. subst. exfalso. apply Hn. now left.
  - destruct IH as (Hb & Ha); [intros Hin; apply Hn; now right|].
    now rewrite Hb, Ha.
Qed.

Lemma command_not_empty (env_cmd : string) (post : list string) :
  post <> [] ->
  String.eqb ("x" ++ env_cmd ++ join (map quoted post)) "x" = false.
Proof.
  intros Hpost. destruct (String.eqb _ "x") eqn:E; [|reflexivity].
  apply is_empty in E. apply append_empty in E as (_ & E).
  apply join_quoted_empty in E. contradiction.
Qed.

Lemma foreach_spec_some (help_page env_cmd : string) (params : list string) :
  params <> [] ->
  foreach help_page env_cmd params
  = let cmd := env_cmd ++ join (map quoted (after_colon params)) in
    if String.eqb ("x" ++ cmd) "x"
    then Exit1 "error: no command specified!"
    else Launch (read_all (before_colon params) unset) cmd.
Proof.
  intros Hne. rewrite foreach_spec. destruct params; [contradiction|reflexivity].
Qed.

(** X11. [foreach] with words [pre] before the first colon and at least one
    word after it goes on to launch jobs with: as targets, the words of
    [pre] that do not start with a dash, in order; verbose set exactly when
    [-v] is among [pre]; the job option of the last dashed word other than
    [-v]; and as the command, what [cmd] held in the environment followed
    by every word after the colon between double quotes and followed by a
    space. *)
Theorem foreach_reads_its_arguments
  (help_page env_cmd : string) (pre post : list string) :
  ~ In ":" pre ->
  post <> [] ->
  foreach help_page env_cmd (pre ++ ":" :: post)%list
  = Launch
      {| args := filter (fun word => negb (dashed word)) pre;
         njobs := jobs_of pre EmptyString;
         verbose := if existsb (fun word => String.eqb word "-v") pre
                    then "true" else EmptyString |}
      (env_cmd ++ join (map quoted post)).
Proof.
  intros Hpre Hpost.
  rewrite foreach_spec_some by (destruct pre; discriminate).
  destruct (colon_split pre post Hpre) as (Hb & Ha).
  cbv zeta. rewrite Hb, Ha, command_not_empty by exact Hpost.
  destruct (read_all_fields pre unset) as (Hargs & Hverb & Hjobs).
  destruct (read_all pre unset) as [a j v]. cbn in *. now subst.
Qed.

Lemma foreach_reads_its_arguments_witness :
  foreach "help" EmptyString ["-v"; "-4"; "a.mif"; "-8"; "b.mif"; ":"; "mrinfo"; "IN"]
  = Launch {| args := ["a.mif"; "b.mif"]; njobs := "-P 8 "; verbose := "true" |}
      (quoted "mrinfo" ++ quoted "IN").
Proof.
  exact (foreach_reads_its_arguments "help" EmptyString
           ["-v"; "-4"; "a.mif"; "-8"; "b.mif"] ["mrinfo"; "IN"]
           ltac:(cbn; intuition discriminate) ltac:(discriminate)).
Defined.

(** X12. [foreach] with at least one argument exits with "error: no command
    specified!" exactly when [cmd] is empty in the environment and nothing
    follows the first colon, which is the case in particular when there is
    no colon; with no argument at all it prints the help page. Both exits
    are [exit 1]. *)
Theorem foreach_without_command
  (help_page env_cmd : string) (params : list string) :
  params <> [] ->
  (foreach help_page env_cmd params = Exit1 "error: no command specified!"
   <-> env_cmd = EmptyString /\ after_colon params = [])
  /\ (~ In ":" params -> after_colon params = [])
  /\ foreach help_page env_cmd [] = Exit1 help_page.
Proof.
  intros Hparams. split; [|split].
  - rewrite foreach_spec_some by exact Hparams. cbv zeta.
    destruct (String.eqb _ "x") eqn:E.
    + apply is_empty in E. apply append_empty in E as (He & Hj).
      apply join_quoted_empty in Hj. tauto.
    + split; [discriminate|]. intros (He & Ha). exfalso.
      rewrite He, Ha in E. discriminate E.
  - intros Hn. now apply no_colon.
  - reflexivity.
Qed.

Lemma foreach_without_command_witness :
  foreach "help" EmptyString ["a.mif"; "b.mif"; ":"]
  = Exit1 "error: no command specified!".
Proof.
  apply (foreach_without_command "help" EmptyString ["a.mif"; "b.mif"; ":"]).
  - discriminate.
  - split; reflexivity.
Defined.

Lemma jobs_of_app (l1 l2 : list string) (j : string) :
  jobs_of (l1 ++ l2)%list j = jobs_of l2 (jobs_of l1 j).
Proof.
  revert j. induction l1 as [|w l1 IH]; intros j; [reflexivity|].
  cbn [app jobs_of]. apply IH.
Qed.

Lemma jobs_of_unchanged (l : list string) (j : string) :
  (forall word, In word l -> sets_jobs word = false) -> jobs_of l j = j.
Proof.
  revert j. induction l as [|w l IH]; intros j Hl; [reflexivity|].
  cbn [jobs_of]. rewrite IH by (intros u Hu; apply Hl; now right).
  pose proof (Hl w (or_introl eq_refl)) as Hw. unfold sets_jobs in Hw.
  destruct (String.eqb w "-v"); [reflexivity|].
  rewrite andb_true_r in Hw. now rewrite Hw.
Qed.

(** X13. Of several job counts in front of the colon the last one decides:
    after a word [-count] that is not [-v] and is followed by no other
    such word, the job option is "-P count ", and that word is not a
    target. *)
Theorem last_job_count_wins
  (help_page env_cmd count : string) (before after post : list string) :
  String dash count <> "-v" ->
  (forall word, In word after -> sets_jobs word = false) ->
  ~ In ":" (before ++ String dash count :: after)%list ->
  post <> [] ->
  exists v cmd,
    foreach help_page env_cmd
      ((before ++ String dash count :: after) ++ ":" :: post)%list
    = Launch v cmd
    /\ njobs v = "-P " ++ count ++ " "
    /\ args v = filter (fun word => negb (dashed word)) (before ++ after)%list.
Proof.
  intros Hv Hafter Hcolon Hpost.
  rewrite (foreach_reads_its_arguments _ _ _ _ Hcolon Hpost).
  eexists; eexists. split; [reflexivity|]. cbn [njobs args]. split.
  - rewrite jobs_of_app. cbn [jobs_of].
    rewrite jobs_of_unchanged by exact Hafter.
    destruct (String.eqb (String dash count) "-v") eqn:E.
    + apply String.eqb_eq in E. contradiction.
    + cbn [dashed]. unfold dash at 1. rewrite Ascii.eqb_refl.
      cbn [String.length substring]. now rewrite substring_all by lia.
  - rewrite !filter_app. cbn [filter dashed]. unfold dash at 1.
    now rewrite Ascii.eqb_refl.
Qed.

Lemma last_job_count_wins_witness :
  exists v cmd,
    foreach "help" EmptyString ["-4"; "a.mif"; "-8"; "-v"; "b.mif"; ":"; "mrinfo"]
    = Launch v cmd
    /\ njobs v = "-P 8 "
    /\ args v = ["a.mif"; "b.mif"].
Proof.
  exact (last_job_count_wins "help" EmptyString "8"
           ["-4"; "a.mif"] ["-v"; "b.mif"] ["mrinfo"]
           ltac:(discriminate)
           ltac:(cbn; intros word [<-|[<-|[]]]; reflexivity)
           ltac:(cbn; intuition discriminate)
           ltac:(discriminate)).
Defined.

Lemma no_dot_no_suffix (name : string) :
  has_char dot name = false -> remove_shortest_suffix dot_star name = None.
Proof.
  induction name as [|c name IH]; intros Hn; [reflexivity|].
  cbn [has_char] in Hn. apply orb_false_iff in Hn as (Hc & Hr).
  cbn [remove_shortest_suffix]. rewrite IH by exact Hr.
  cbn [dot_star]. now rewrite Hc.
Qed.

Lemma last_dot_suffix (stem ext : string) :
  has_char dot ext = false ->
  remove_shortest_suffix dot_star (stem ++ String dot ext) = Some stem.
Proof.
  intros Hext. induction stem as [|c stem IH].
  - cbn [append remove_shortest_suffix].
    rewrite no_dot_no_suffix by exact Hext.
    cbn [dot_star]. now rewrite Ascii.eqb_refl.
  - cbn [append remove_shortest_suffix]. now rewrite IH.
Qed.

(** Every name is either free of dots or splits at its last dot. *)
Lemma split_at_last_dot (name : string) :
  has_char dot name = false
  \/ exists stem ext, name = stem ++ String dot ext /\ has_char dot ext = false.
Proof.
  induction name as [|c name IH]; [now left|].
  destruct IH as [Hn|(stem & ext & -> & Hext)].
  - cbn [has_char]. destruct (Ascii.eqb c dot) eqn:E.
    + right. apply Ascii.eqb_eq in E. subst c.
      exists EmptyString, name. split; [reflexivity|exact Hn].
    + left. now rewrite Hn.
  - right. exists (String c stem), ext. split; [reflexivity|exact Hext].
Qed.

(** X14. [${name%.*}] cuts a name at its last dot: a name without a dot is
    kept whole, a name [stem.ext] whose [ext] has no dot becomes [stem],
    and in every case the name is the result followed by nothing or by a
    dot and a dot-free extension. *)
Theorem strip_extension_at_last_dot (name : string) :
  (has_char dot name = false -> strip_extension name = name)
  /\ (forall stem ext,
        name = stem ++ String dot ext -> has_char dot ext = false ->
        strip_extension name = stem)
  /\ exists rest, name = strip_extension name ++ rest
                  /\ (rest = EmptyString
                      \/ exists ext, rest = String dot ext
                                     /\ has_char dot ext = false).
Proof.
  split; [|split].
  - intros Hn. unfold strip_extension. now rewrite no_dot_no_suffix.
  - intros stem ext -> Hext. unfold strip_extension. now rewrite last_dot_suffix.
  - unfold strip_extension.
    destruct (split_at_last_dot name) as [Hn|(stem & ext & -> & Hext)].
    + rewrite no_dot_no_suffix by exact Hn.
      exists EmptyString. split; [now rewrite append_nil_r|now left].
    + rewrite last_dot_suffix by exact Hext.
      exists (String dot ext). split; [reflexivity|].
      right. now exists ext.
Qed.

Lemma strip_extension_at_last_dot_witness :
  strip_extension "image.mif" = "image"
  /\ strip_extension "scan.nii.gz" = "scan.nii"
  /\ strip_extension ".hidden" = EmptyString
  /\ strip_extension "README" = "README".
Proof.
  split; [|split; [|split]].
  - exact (proj1 (proj2 (strip_extension_at_last_dot "image.mif"))
             "image" "mif" eq_refl eq_refl).
  - exact (proj1 (proj2 (strip_extension_at_last_dot "scan.nii.gz"))
             "scan.nii" "gz" eq_refl eq_refl).
  - exact (proj1 (proj2 (strip_extension_at_last_dot ".hidden"))
             EmptyString "hidden" eq_refl eq_refl).
  - exact (proj1 (strip_extension_at_last_dot "README") eq_refl).
Defined.

End ForeachFacts.
